(** * Hartree-Fock SCF building blocks ([SCF.py]): a shallow embedding

    The module [SCF.py] holds the numerical kernels of a restricted
    Hartree-Fock procedure: the nuclear repulsion energy, the Fock matrix
    build, the density matrix and the total energy.

    Modelling conventions.
    - A numpy [float64] is a real number ([R]): rounding, overflow and the
      IEEE special values are outside the model, so every sum below is the
      exact sum.  numpy scalar division never raises; dividing by zero gives
      [inf] or [nan] there.  Here [x / 0] is some real number, which is not
      the code's value: no statement below says what a division by zero
      gives, only that it does not raise.
    - A two-dimensional numpy array is the list of its rows, the
      four-index integral tensor is nested the same way.
    - Python exceptions are the [Raise] outcome of the [result] type.
    - Arrays that are passed by reference live in a [heap]; a function that
      works on them is a computation in the monad [M]. *)

From Stdlib Require Import Reals Lra Lia ZArith List.
From stdpp Require Import base option list gmap.
Import ListNotations.

Set Default Proof Using "Type".

(** ** Exceptions and results *)

Inductive exn : Set :=
| IndexError   (* an index outside an axis *)
| ValueError   (* operands that cannot be broadcast together *)
| TypeError.   (* an object of an unexpected kind *)

Inductive result (A : Type) : Type :=
| Ok (a : A)
| Raise (e : exn).
Arguments Ok {A} a.
Arguments Raise {A} e.

#[global] Instance result_ret : MRet result := fun A a => Ok a.
#[global] Instance result_bind : MBind result := fun A B f m =>
  match m with
  | Ok a => f a
  | Raise e => Raise e
  end.

Definition of_option {A} (e : exn) (o : option A) : result A :=
  match o with
  | Some a => Ok a
  | None => Raise e
  end.

(** [for x in l: s = body x s], in any monad. *)
Fixpoint for_in `{MBind T, MRet T} {A S : Type}
    (l : list A) (body : A -> S -> T S) (s : S) : T S :=
  match l with
  | [] => mret s
  | x :: l' => s' ← body x s; for_in l' body s'
  end.

(** [range(start, stop)] and [range(stop)]; a negative [stop] gives the
    empty range. *)
Definition py_range2 (start stop : nat) : list nat := seq start (stop - start).
Definition py_range (stop : Z) : list nat := seq 0 (Z.to_nat stop).

(** ** Arrays *)

Abbreviation matrix := (list (list R)).
Abbreviation tensor4 := (list (list (list (list R)))).

Definition Rsum (l : list R) : R := foldr Rplus 0%R l.

(** [np.zeros((r, c))] *)
Definition np_zeros (r c : nat) : matrix := replicate r (replicate c 0%R).

(** [v[i]] *)
Definition getitem1 {A} (v : list A) (i : nat) : result A :=
  of_option IndexError (v !! i).

(** [m[i, j]] *)
Definition getitem2 (m : matrix) (i j : nat) : result R :=
  of_option IndexError (m !! i ≫= (.!! j)).

(** [m[i, j] = x] *)
Definition setitem2 (m : matrix) (i j : nat) (x : R) : result matrix :=
  match m !! i with
  | Some row =>
      if bool_decide (j < length row)%nat
      then Ok (<[i := <[j := x]> row]> m)
      else Raise IndexError
  | None => Raise IndexError
  end.

(** [t[i, j]]: the matrix of the last two axes. *)
Definition getitem4_ij (t : tensor4) (i j : nat) : result matrix :=
  of_option IndexError (t !! i ≫= (.!! j)).

(** [t[i, :, j]]: the matrix whose entry [(a, b)] is [t[i, a, j, b]]. *)
Definition getitem4_i_j (t : tensor4) (i j : nat) : result matrix :=
  of_option IndexError (t !! i ≫= mapM (.!! j)).

(** Two matrices of the same shape.  numpy would also stretch an axis of
    length one; that case is not modelled and counts as a mismatch. *)
Definition same_shape (a b : matrix) : bool :=
  bool_decide (length <$> a = length <$> b).

(** [a * b] and [a + b], elementwise. *)
Definition np_mul (a b : matrix) : result matrix :=
  if same_shape a b then Ok (zip_with (zip_with Rmult) a b)
  else Raise ValueError.
Definition np_add (a b : matrix) : result matrix :=
  if same_shape a b then Ok (zip_with (zip_with Rplus) a b)
  else Raise ValueError.

(** [m.sum()] *)
Definition np_sum (m : matrix) : R := Rsum (concat m).

(** Positions of atoms: the rows of the [(N_atoms, 3)] coordinate array. *)
Definition vec3 : Type := (R * R * R)%type.

Definition vec3_sub (u v : vec3) : vec3 :=
  let '(ux, uy, uz) := u in
  let '(vx, vy, vz) := v in
  (ux - vx, uy - vy, uz - vz)%R.

(** The position [u] moved by [t]. *)
Definition vec3_add (u t : vec3) : vec3 :=
  let '(ux, uy, uz) := u in
  let '(tx, ty, tz) := t in
  (ux + tx, uy + ty, uz + tz)%R.

(** [np.linalg.norm] of a vector. *)
Definition np_linalg_norm (v : vec3) : R :=
  let '(x, y, z) := v in sqrt (x * x + y * y + z * z).

(** ** The molecule object (the part of PySCF's [Mole] that is used) *)

Record molecule : Type := Mole {
  atom_charges : list R;
  atom_coords : list vec3;
  nao : nat;
  nelec : Z * Z
}.

(** [coords.shape] of the [(N_atoms, 3)] array *)
Definition coords_shape0 (coords : list vec3) : nat := length coords.
Definition coords_shape1 : nat := 3.

(** ** [calc_nuclear_repulsion_energy] *)

Definition calc_nuclear_repulsion_energy (mol_ : molecule) : result R :=
  let charges := atom_charges mol_ in
  let coords := atom_coords mol_ in
  let Enuc := 0%R in
  let distance_matrix := np_zeros 3 3 in
  distance_matrix ←
    for_in (py_range2 0 (coords_shape0 coords)) (fun i dm =>
      for_in (py_range2 0 coords_shape1) (fun j dm =>
        ci ← getitem1 coords i;
        cj ← getitem1 coords j;
        setitem2 dm i j (np_linalg_norm (vec3_sub ci cj))) dm)
      distance_matrix;
  for_in (py_range2 0 (coords_shape0 coords)) (fun i Enuc =>
    for_in (py_range2 (i + 1) coords_shape1) (fun j Enuc =>
      qi ← getitem1 charges i;
      qj ← getitem1 charges j;
      d ← getitem2 distance_matrix i j;
      Ok (Enuc + (qi * qj) / d)%R) Enuc)
    Enuc.

(** ** [calc_initial_density] and [calc_hcore_matrix] *)

Definition calc_initial_density (mol_ : molecule) : matrix :=
  let num_aos := nao mol_ in
  np_zeros num_aos num_aos.

Definition calc_hcore_matrix (Tuv_ Vuv_ : matrix) : result matrix :=
  np_add Tuv_ Vuv_.

(** ** The heap of arrays and the monad of computations on it *)

Inductive ndarray : Type :=
| Mat (m : matrix)
| Ten (t : tensor4).

Abbreviation loc := nat (only parsing).
Abbreviation heap := (gmap nat ndarray).

Definition M (A : Type) : Type := heap -> result (A * heap).

#[global] Instance M_ret : MRet M := fun A a h => Ok (a, h).
#[global] Instance M_bind : MBind M := fun A B f m h =>
  match m h with
  | Ok (a, h') => f a h'
  | Raise e => Raise e
  end.

Definition lift {A} (r : result A) : M A := fun h =>
  match r with
  | Ok a => Ok (a, h)
  | Raise e => Raise e
  end.

(** Reading the array behind a reference, as a matrix or as a tensor. *)
Definition load_mat (r : loc) : M matrix := fun h =>
  match h !! r with
  | Some (Mat m) => Ok (m, h)
  | _ => Raise TypeError
  end.
Definition load_ten (r : loc) : M tensor4 := fun h =>
  match h !! r with
  | Some (Ten t) => Ok (t, h)
  | _ => Raise TypeError
  end.

(** Writing back the matrix behind a reference (the effect of an item
    assignment). *)
Definition store_mat (r : loc) (m : matrix) : M unit := fun h =>
  Ok (tt, <[r := Mat m]> h).

(** [a.copy()]: a new array with the same contents. *)
Definition np_copy (r : loc) : M loc := fun h =>
  match h !! r with
  | Some a => let l := fresh (dom h) in Ok (l, <[l := a]> h)
  | None => Raise TypeError
  end.

(** ** [calc_fock_matrix] *)

Definition calc_fock_matrix (mol_ : molecule) (h_core_ er_ints_ Duv_ : loc)
  : M loc :=
  Fuv ← np_copy h_core_;
  let num_aos := Z.of_nat (nao mol_) in
  _ ← for_in (py_range num_aos) (fun i (_ : unit) =>
        for_in (py_range num_aos) (fun j (_ : unit) =>
          F ← load_mat Fuv;
          old ← lift (getitem2 F i j);
          D ← load_mat Duv_;
          E ← load_ten er_ints_;
          Eij ← lift (getitem4_ij E i j);
          DEij ← lift (np_mul D Eij);
          D' ← load_mat Duv_;
          E' ← load_ten er_ints_;
          Ei_j ← lift (getitem4_i_j E' i j);
          DEi_j ← lift (np_mul D' Ei_j);
          F' ← load_mat Fuv;
          F'' ← lift (setitem2 F' i j
                   (old + (np_sum DEij - 0.5 * np_sum DEi_j))%R);
          store_mat Fuv F'') tt) tt;
  mret Fuv.

(** ** [form_density_matrix] *)

Definition form_density_matrix (mol_ : molecule) (mo_coeffs_ : matrix)
  : result matrix :=
  let nelec := (nelec mol_).1 in
  let num_aos := Z.of_nat (nao mol_) in
  let Duv := np_zeros (nao mol_) (nao mol_) in
  for_in (py_range num_aos) (fun i Duv =>
    for_in (py_range num_aos) (fun j Duv =>
      for_in (py_range nelec) (fun k Duv =>
        old ← getitem2 Duv i j;
        cik ← getitem2 mo_coeffs_ i k;
        cjk ← getitem2 mo_coeffs_ j k;
        setitem2 Duv i j (old + 2 * cik * cjk)%R) Duv) Duv) Duv.

(** ** [calc_tot_energy] *)

Definition calc_tot_energy (Fuv_ Huv_ Duv_ : loc) (Enuc_ : R) : M R :=
  D ← load_mat Duv_;
  H ← load_mat Huv_;
  F ← load_mat Fuv_;
  HF ← lift (np_add H F);
  DHF ← lift (np_mul D HF);
  mret (0.5 * np_sum DHF + Enuc_)%R.

(** ** Vocabulary of the specification *)

(** [m[i, j]] and [t[i, j, k, l]] as numbers (0 outside the array). *)
Definition at2 (m : matrix) (i j : nat) : R :=
  default 0%R (m !! i ≫= (.!! j)).
Definition at4 (t : tensor4) (i j k l : nat) : R :=
  at2 (default [] (t !! i ≫= (.!! j))) k l.

(** The sum of [f k] for [0 <= k < n]. *)
Definition bigsum (n : nat) (f : nat -> R) : R := Rsum (f <$> seq 0 n).

(** Shapes. *)
Definition is_matrix (r c : nat) (m : matrix) : Prop :=
  length m = r /\ Forall (fun row => length row = c) m.
Definition is_tensor4 (n : nat) (t : tensor4) : Prop :=
  length t = n /\
  Forall (fun p => length p = n /\ Forall (is_matrix n n) p) t.

(** A symmetric matrix, and the generators of the 8-fold permutational
    symmetry of two-electron integrals over real orbitals:
    (ij|kl) = (ji|kl) = (ij|lk) = (kl|ij). *)
Definition symmetric (n : nat) (m : matrix) : Prop :=
  forall i j, (i < n)%nat -> (j < n)%nat -> at2 m i j = at2 m j i.
Definition eri_symmetric (n : nat) (t : tensor4) : Prop :=
  forall i j k l, (i < n)%nat -> (j < n)%nat -> (k < n)%nat -> (l < n)%nat ->
    at4 t i j k l = at4 t j i k l /\
    at4 t i j k l = at4 t i j l k /\
    at4 t i j k l = at4 t k l i j.

(** The quadratic form x^T m x over the first [n] indices. *)
Definition quad_form (n : nat) (m : matrix) (x : nat -> R) : R :=
  bigsum n (fun i => bigsum n (fun j => x i * at2 m i j * x j))%R.

(** The trace of the product [a b] and the cell [(i, j)] of the product
    [a b c], over the first [n] indices. *)
Definition trace_prod (n : nat) (a b : matrix) : R :=
  bigsum n (fun i => bigsum n (fun j => at2 a i j * at2 b j i))%R.
Definition prod3_at (n : nat) (a b c : matrix) (i j : nat) : R :=
  bigsum n (fun p => bigsum n (fun q =>
    at2 a i p * at2 b p q * at2 c q j))%R.

(** The product [C_k^T S C_k'] of two columns of [C] in the metric [S]. *)
Definition column_prod (n : nat) (C S : matrix) (k k' : nat) : R :=
  bigsum n (fun p => bigsum n (fun q =>
    at2 C p k * at2 S p q * at2 C q k'))%R.

(** The matrix [m] is [n] by [n] and its cells are given by [f]. *)
Definition mat_rep (n : nat) (f : nat -> nat -> R) (m : matrix) : Prop :=
  is_matrix n n m /\
  forall a b, (a < n)%nat -> (b < n)%nat -> at2 m a b = f a b.

(** The body of the two loops of [calc_fock_matrix], for the proofs: the
    statement [Fuv[i, j] += ...] on the heap. *)
Definition fock_cell (Fuv er_ints_ Duv_ : loc) (i j : nat) : M unit :=
  F ← load_mat Fuv;
  old ← lift (getitem2 F i j);
  D ← load_mat Duv_;
  E ← load_ten er_ints_;
  Eij ← lift (getitem4_ij E i j);
  DEij ← lift (np_mul D Eij);
  D' ← load_mat Duv_;
  E' ← load_ten er_ints_;
  Ei_j ← lift (getitem4_i_j E' i j);
  DEi_j ← lift (np_mul D' Ei_j);
  F' ← load_mat Fuv;
  F'' ← lift (setitem2 F' i j
           (old + (np_sum DEij - 0.5 * np_sum DEi_j))%R);
  store_mat Fuv F''.

(** The heap is [h] with the [N] by [N] matrix of cells [f] at [Fuv]. *)
Definition fock_rep (N : nat) (h : heap) (Fuv : nat)
    (f : nat -> nat -> R) (sh : unit * heap) : Prop :=
  exists m, sh.2 = <[Fuv := Mat m]> h /\ mat_rep N f m.


(** The Coulomb and exchange contractions as the code takes them:
    [(Duv_ * er_ints_[i, j]).sum()] and [(Duv_ * er_ints_[i, :, j]).sum()]. *)
Definition coulomb (n : nat) (D : matrix) (t : tensor4) (i j : nat) : R :=
  bigsum n (fun k => bigsum n (fun l => at2 D k l * at4 t i j k l))%R.
Definition exchange_code (n : nat) (D : matrix) (t : tensor4) (i j : nat)
  : R :=
  bigsum n (fun a => bigsum n (fun b => at2 D a b * at4 t i a j b))%R.

(** A small instance, two atomic orbitals: a core Hamiltonian at
    reference 0, a density at 1 and the integrals
    [1 + (i + j) * (k + l)] at 2. *)
Definition example_mol : molecule := Mole [] [] 2 (1%Z, 1%Z).
Definition example_H : matrix := [[1; 2]; [2; 3]]%R.
Definition example_D : matrix := [[2; 1]; [1; 4]]%R.
Definition example_ERI : tensor4 :=
  [ [ [[1; 1]; [1; 1]]; [[1; 2]; [2; 3]] ];
    [ [[1; 2]; [2; 3]]; [[1; 3]; [3; 5]] ] ]%R.
Definition example_heap : heap :=
  {[ 0%nat := Mat example_H; 1%nat := Mat example_D;
     2%nat := Ten example_ERI ]}.

(** The small instance with the initial (zero) density at reference 1, and
    with two more densities: [example_H] at 3 and the sum of [example_D] and
    [example_H] at 4. *)
Definition example_heap0 : heap :=
  {[ 0%nat := Mat example_H; 1%nat := Mat (calc_initial_density example_mol);
     2%nat := Ten example_ERI ]}.
Definition example_D_sum : matrix := [[3; 3]; [3; 7]]%R.
Definition example_heap_sum : heap :=
  {[ 0%nat := Mat example_H; 1%nat := Mat example_D;
     2%nat := Ten example_ERI; 3%nat := Mat example_H;
     4%nat := Mat example_D_sum ]}.

(** * Properties *)

Local Open Scope R_scope.

(** ** Finite sums *)

Lemma bigsum_0 (f : nat -> R) : bigsum 0 f = 0.
Proof. reflexivity. Qed.

Lemma Rsum_app (l1 l2 : list R) : Rsum (l1 ++ l2) = Rsum l1 + Rsum l2.
Proof.
  induction l1 as [|x l1 IH]; simpl.
  - lra.
  - rewrite IH. lra.
Qed.

Lemma bigsum_S (n : nat) (f : nat -> R) :
  bigsum (S n) f = bigsum n f + f n.
Proof.
  unfold bigsum. rewrite seq_S, fmap_app, Rsum_app. simpl. lra.
Qed.

Lemma bigsum_S_l (n : nat) (f : nat -> R) :
  bigsum (S n) f = f 0%nat + bigsum n (fun k => f (S k)).
Proof.
  unfold bigsum. simpl. f_equal.
  rewrite <- fmap_S_seq, <- list_fmap_compose. reflexivity.
Qed.

Lemma bigsum_ext (n : nat) (f g : nat -> R) :
  (forall k, (k < n)%nat -> f k = g k) -> bigsum n f = bigsum n g.
Proof.
  induction n as [|n IH]; intros Hfg; [reflexivity|].
  rewrite !bigsum_S, IH by (intros; apply Hfg; lia).
  rewrite Hfg by lia. reflexivity.
Qed.

Lemma bigsum_zero (n : nat) : bigsum n (fun _ => 0) = 0.
Proof.
  induction n as [|n IH]; [reflexivity|]. rewrite bigsum_S, IH. lra.
Qed.

Lemma bigsum_plus (n : nat) (f g : nat -> R) :
  bigsum n (fun k => f k + g k) = bigsum n f + bigsum n g.
Proof.
  induction n as [|n IH]; [rewrite !bigsum_0; lra|].
  rewrite !bigsum_S, IH. lra.
Qed.

Lemma bigsum_scal (n : nat) (c : R) (f : nat -> R) :
  bigsum n (fun k => c * f k) = c * bigsum n f.
Proof.
  induction n as [|n IH]; [rewrite !bigsum_0; lra|].
  rewrite !bigsum_S, IH. lra.
Qed.

Lemma bigsum_scal_r (n : nat) (c : R) (f : nat -> R) :
  bigsum n (fun k => f k * c) = bigsum n f * c.
Proof.
  induction n as [|n IH]; [rewrite !bigsum_0; lra|].
  rewrite !bigsum_S, IH. lra.
Qed.

Lemma bigsum_exchange (n m : nat) (f : nat -> nat -> R) :
  bigsum n (fun k => bigsum m (fun l => f k l)) =
  bigsum m (fun l => bigsum n (fun k => f k l)).
Proof.
  induction n as [|n IH].
  - rewrite bigsum_0. symmetry. apply bigsum_zero.
  - rewrite bigsum_S, IH, <- bigsum_plus.
    apply bigsum_ext; intros l _. rewrite bigsum_S. reflexivity.
Qed.

Lemma bigsum_nonneg (n : nat) (f : nat -> R) :
  (forall k, (k < n)%nat -> 0 <= f k) -> 0 <= bigsum n f.
Proof.
  induction n as [|n IH]; intros Hf; [rewrite bigsum_0; lra|].
  rewrite bigsum_S.
  assert (0 <= bigsum n f) by (apply IH; intros; apply Hf; lia).
  assert (0 <= f n) by (apply Hf; lia). lra.
Qed.

(** The sum of a list is the sum of its entries by index. *)
Lemma Rsum_bigsum (l : list R) :
  Rsum l = bigsum (length l) (fun j => default 0 (l !! j)).
Proof.
  induction l as [|x l IH]; [reflexivity|].
  simpl length. rewrite bigsum_S_l. simpl. rewrite IH. reflexivity.
Qed.

Local Close Scope R_scope.

(** ** Arrays of a given shape *)

Lemma is_matrix_lookup (r c : nat) (m : matrix) (i : nat) :
  is_matrix r c m -> i < r -> exists row, m !! i = Some row /\ length row = c.
Proof.
  intros [Hlen Hrows] Hi.
  destruct (lookup_lt_is_Some_2 m i) as [row Hrow]; [lia|].
  exists row. split; [done|].
  by apply (proj1 (Forall_lookup _ _) Hrows i row).
Qed.

Lemma is_matrix_lookup2 (r c : nat) (m : matrix) (i j : nat) :
  is_matrix r c m -> i < r -> j < c ->
  m !! i ≫= (.!! j) = Some (at2 m i j).
Proof.
  intros Hm Hi Hj. unfold at2.
  destruct (is_matrix_lookup r c m i Hm Hi) as (row & -> & Hrow). simpl.
  destruct (lookup_lt_is_Some_2 row j) as [x ->]; [lia|]. done.
Qed.

Lemma getitem2_ok (r c : nat) (m : matrix) (i j : nat) :
  is_matrix r c m -> i < r -> j < c -> getitem2 m i j = Ok (at2 m i j).
Proof.
  intros Hm Hi Hj. unfold getitem2.
  by rewrite (is_matrix_lookup2 r c m i j).
Qed.

Lemma getitem2_column_out (r c : nat) (m : matrix) (i j : nat) :
  is_matrix r c m -> i < r -> c <= j -> getitem2 m i j = Raise IndexError.
Proof.
  intros Hm Hi Hj. unfold getitem2.
  destruct (is_matrix_lookup r c m i Hm Hi) as (row & -> & Hrow). simpl.
  rewrite lookup_ge_None_2 by lia. done.
Qed.

Lemma at2_insert (m : matrix) (row : list R) (i j : nat) (x : R) (a b : nat) :
  m !! i = Some row -> j < length row ->
  at2 (<[i := <[j := x]> row]> m) a b =
  if decide (a = i /\ b = j) then x else at2 m a b.
Proof.
  intros Hrow Hj. unfold at2.
  assert (i < length m) by (by eapply lookup_lt_Some).
  destruct (decide (a = i)) as [->|Hai].
  - rewrite list_lookup_insert_eq by done. simpl. rewrite Hrow. simpl.
    destruct (decide (b = j)) as [->|Hbj].
    + rewrite list_lookup_insert_eq by lia.
      by rewrite decide_True.
    + rewrite list_lookup_insert_ne by lia.
      rewrite decide_False by (intros [? ?]; congruence). done.
  - rewrite list_lookup_insert_ne by done.
    rewrite decide_False by (intros [? ?]; congruence). done.
Qed.

Lemma setitem2_ok (r c : nat) (m : matrix) (i j : nat) (x : R) :
  is_matrix r c m -> i < r -> j < c ->
  exists m', setitem2 m i j x = Ok m' /\ is_matrix r c m' /\
    forall a b, at2 m' a b = if decide (a = i /\ b = j) then x else at2 m a b.
Proof.
  intros Hm Hi Hj.
  destruct (is_matrix_lookup r c m i Hm Hi) as (row & Hrow & Hlen).
  unfold setitem2. rewrite Hrow, bool_decide_true by lia.
  eexists. split; [done|]. split.
  - destruct Hm as [Hl Hrows]. split; [by rewrite length_insert|].
    apply Forall_insert; [done|]. by rewrite length_insert.
  - intros a b. apply at2_insert; [done|lia].
Qed.

Lemma np_zeros_is_matrix (r c : nat) : is_matrix r c (np_zeros r c).
Proof.
  split; [apply length_replicate|].
  apply Forall_replicate, length_replicate.
Qed.

Lemma at2_np_zeros (r c i j : nat) : at2 (np_zeros r c) i j = 0%R.
Proof.
  unfold at2, np_zeros.
  destruct (decide (i < r)) as [Hi|Hi].
  - rewrite lookup_replicate_2 by done. simpl.
    destruct (decide (j < c)) as [Hj|Hj].
    + by rewrite lookup_replicate_2.
    + by rewrite (proj1 (lookup_replicate_None _ _ _)) by lia.
  - by rewrite (proj1 (lookup_replicate_None _ _ _)) by lia.
Qed.

(** Two matrices of one shape with the same entries are the same list. *)
Lemma matrix_ext (r c : nat) (m1 m2 : matrix) :
  is_matrix r c m1 -> is_matrix r c m2 ->
  (forall i j, i < r -> j < c -> at2 m1 i j = at2 m2 i j) -> m1 = m2.
Proof.
  intros H1 H2 Hat. apply list_eq; intros i.
  destruct (decide (i < r)) as [Hi|Hi].
  - destruct (is_matrix_lookup r c m1 i H1 Hi) as (r1 & E1 & L1).
    destruct (is_matrix_lookup r c m2 i H2 Hi) as (r2 & E2 & L2).
    rewrite E1, E2. f_equal. apply list_eq; intros j.
    destruct (decide (j < c)) as [Hj|Hj].
    + specialize (Hat i j Hi Hj). unfold at2 in Hat.
      rewrite E1, E2 in Hat. simpl in Hat.
      destruct (lookup_lt_is_Some_2 r1 j) as [x1 Ex1]; [lia|].
      destruct (lookup_lt_is_Some_2 r2 j) as [x2 Ex2]; [lia|].
      rewrite Ex1, Ex2 in *. simpl in Hat. by subst.
    + rewrite !lookup_ge_None_2 by lia. done.
  - destruct H1 as [L1 _], H2 as [L2 _].
    rewrite !lookup_ge_None_2 by lia. done.
Qed.

Lemma same_shape_true (r c : nat) (a b : matrix) :
  is_matrix r c a -> is_matrix r c b -> same_shape a b = true.
Proof.
  intros Ha Hb. unfold same_shape. apply bool_decide_eq_true.
  apply list_eq; intros i. rewrite !list_lookup_fmap.
  destruct (decide (i < r)) as [Hi|Hi].
  - destruct (is_matrix_lookup r c a i Ha Hi) as (ra & -> & La).
    destruct (is_matrix_lookup r c b i Hb Hi) as (rb & -> & Lb).
    simpl. congruence.
  - destruct Ha as [La _], Hb as [Lb _].
    rewrite !lookup_ge_None_2 by lia. done.
Qed.

Section elementwise.
Variable op : R -> R -> R.

Lemma zip_rows_is_matrix (r c : nat) (a b : matrix) :
  is_matrix r c a -> is_matrix r c b ->
  is_matrix r c (zip_with (zip_with op) a b).
Proof.
  intros Ha Hb. split.
  - destruct Ha as [La _], Hb as [Lb _]. rewrite length_zip_with. lia.
  - apply Forall_lookup; intros i row Hrow.
    apply lookup_zip_with_Some in Hrow as (ra & rb & -> & Era & Erb).
    assert (i < r) by (destruct Ha as [<- _]; by eapply lookup_lt_Some).
    destruct (is_matrix_lookup r c a i Ha) as (ra' & Era' & La); [done|].
    destruct (is_matrix_lookup r c b i Hb) as (rb' & Erb' & Lb); [done|].
    simplify_eq. rewrite length_zip_with. lia.
Qed.

Lemma at2_zip_rows (r c : nat) (a b : matrix) (i j : nat) :
  is_matrix r c a -> is_matrix r c b -> i < r -> j < c ->
  at2 (zip_with (zip_with op) a b) i j = op (at2 a i j) (at2 b i j).
Proof.
  intros Ha Hb Hi Hj. unfold at2.
  destruct (is_matrix_lookup r c a i Ha Hi) as (ra & Era & La).
  destruct (is_matrix_lookup r c b i Hb Hi) as (rb & Erb & Lb).
  rewrite lookup_zip_with, Era, Erb. simpl.
  destruct (lookup_lt_is_Some_2 ra j) as [x Ex]; [lia|].
  destruct (lookup_lt_is_Some_2 rb j) as [y Ey]; [lia|].
  rewrite lookup_zip_with, Ex, Ey. done.
Qed.
End elementwise.

Lemma np_mul_ok (r c : nat) (a b : matrix) :
  is_matrix r c a -> is_matrix r c b ->
  np_mul a b = Ok (zip_with (zip_with Rmult) a b).
Proof. intros Ha Hb. unfold np_mul. by rewrite (same_shape_true r c). Qed.

Lemma np_add_ok (r c : nat) (a b : matrix) :
  is_matrix r c a -> is_matrix r c b ->
  np_add a b = Ok (zip_with (zip_with Rplus) a b).
Proof. intros Ha Hb. unfold np_add. by rewrite (same_shape_true r c). Qed.

Lemma np_sum_bigsum (r c : nat) (m : matrix) :
  is_matrix r c m ->
  np_sum m = bigsum r (fun i => bigsum c (fun j => at2 m i j)).
Proof.
  revert r. induction m as [|row m IH]; intros r [Hl Hrows].
  - simpl in Hl. subst r. reflexivity.
  - simpl in Hl. subst r. apply Forall_cons in Hrows as [Hrow Hrows].
    rewrite bigsum_S_l. unfold np_sum. simpl concat. rewrite Rsum_app.
    f_equal.
    + rewrite Rsum_bigsum, Hrow. reflexivity.
    + apply (IH (length m)). by split.
Qed.

Lemma getitem4_ij_ok (n : nat) (t : tensor4) (i j : nat) :
  is_tensor4 n t -> i < n -> j < n ->
  exists m, getitem4_ij t i j = Ok m /\ is_matrix n n m /\
    forall k l, at2 m k l = at4 t i j k l.
Proof.
  intros [Hl Ht] Hi Hj.
  destruct (lookup_lt_is_Some_2 t i) as [p Hp]; [lia|].
  destruct (proj1 (Forall_lookup _ _) Ht i p Hp) as [Hlp Hmats].
  destruct (lookup_lt_is_Some_2 p j) as [m Hm]; [lia|].
  exists m. unfold getitem4_ij, at4. rewrite Hp. simpl. rewrite Hm. simpl.
  split; [done|]. split; [|done].
  by apply (proj1 (Forall_lookup _ _) Hmats j m).
Qed.

Lemma getitem4_i_j_ok (n : nat) (t : tensor4) (i j : nat) :
  is_tensor4 n t -> i < n -> j < n ->
  exists m, getitem4_i_j t i j = Ok m /\ is_matrix n n m /\
    forall a b, a < n -> b < n -> at2 m a b = at4 t i a j b.
Proof.
  intros [Hl Ht] Hi Hj.
  destruct (lookup_lt_is_Some_2 t i) as [p Hp]; [lia|].
  destruct (proj1 (Forall_lookup _ _) Ht i p Hp) as [Hlp Hmats].
  assert (is_Some (mapM (.!! j) p)) as [m Hm].
  { apply mapM_is_Some. eapply Forall_impl; [exact Hmats|].
    intros x [Hx _]. simpl. apply lookup_lt_is_Some_2. lia. }
  exists m. unfold getitem4_i_j. rewrite Hp. simpl. rewrite Hm. simpl.
  split; [done|].
  apply mapM_Some_1 in Hm.
  assert (forall a, a < n -> exists x y,
    p !! a = Some x /\ m !! a = Some y /\ x !! j = Some y /\ is_matrix n n x)
    as Hrow.
  { intros a Ha.
    destruct (lookup_lt_is_Some_2 p a) as [x Hx]; [lia|].
    destruct (Forall2_lookup_l _ _ _ _ _ Hm Hx) as (y & Hy & Hxy).
    exists x, y. repeat split; try done.
    all: by apply (proj1 (Forall_lookup _ _) Hmats a x). }
  split.
  - split; [by rewrite <- (Forall2_length _ _ _ Hm)|].
    apply Forall_lookup; intros a y Hy.
    assert (a < n) as Ha.
    { rewrite <- Hlp, (Forall2_length _ _ _ Hm). by eapply lookup_lt_Some. }
    destruct (Hrow a Ha) as (x & y' & Hx & Hy' & Hxy & Hmx).
    assert (y' = y) as -> by congruence.
    by apply (proj1 (Forall_lookup _ _) (proj2 Hmx) j y).
  - intros a b Ha Hb.
    destruct (Hrow a Ha) as (x & y & Hx & Hy & Hxy & Hmx).
    unfold at4, at2. rewrite Hp. simpl. rewrite Hx, Hy. simpl.
    rewrite Hxy. done.
Qed.

(** ** Loops *)

Lemma for_in_app {A S} (l1 l2 : list A) (body : A -> S -> result S) (s : S) :
  for_in (l1 ++ l2) body s = for_in l1 body s ≫= for_in l2 body.
Proof.
  revert s. induction l1 as [|x l1 IH]; intros s; [reflexivity|].
  simpl. destruct (body x s) as [s'|e]; simpl; [apply IH|reflexivity].
Qed.

Lemma for_in_ext {A S} (l : list A) (b1 b2 : A -> S -> result S) (s : S) :
  (forall x s, b1 x s = b2 x s) -> for_in l b1 s = for_in l b2 s.
Proof.
  intros Hb. revert s. induction l as [|x l IH]; intros s; [reflexivity|].
  simpl. rewrite Hb. destruct (b2 x s); simpl; [apply IH|reflexivity].
Qed.

(** A loop in [M] is the loop in [result] over the pair of the loop
    variable's state and the heap. *)
Lemma for_in_M {A S} (l : list A) (body : A -> S -> M S) (s : S) (h : heap) :
  for_in l body s h =
  for_in (T := result) l (fun x sh => body x sh.1 sh.2) (s, h).
Proof.
  revert s h. induction l as [|x l IH]; intros s h; [reflexivity|].
  simpl. unfold mbind at 1, M_bind.
  destruct (body x s h) as [[s' h']|e]; simpl; [apply IH|reflexivity].
Qed.

(** The invariant rule for a counting loop. *)
Lemma for_in_seq_inv {S} (I : nat -> S -> Prop)
    (body : nat -> S -> result S) (a n : nat) (s : S) :
  I a s ->
  (forall i s, a <= i < a + n -> I i s ->
     exists s', body i s = Ok s' /\ I (Datatypes.S i) s') ->
  exists s', for_in (seq a n) body s = Ok s' /\ I (a + n) s'.
Proof.
  revert a s. induction n as [|n IH]; intros a s Ha Hstep.
  - exists s. rewrite Nat.add_0_r. done.
  - destruct (Hstep a s) as (s1 & Hb & H1); [lia|done|].
    destruct (IH (Datatypes.S a) s1) as (s2 & Hl & H2); [done| |].
    { intros i s' Hi. apply Hstep. lia. }
    exists s2. simpl. rewrite Hb. simpl. split; [done|].
    by replace (a + Datatypes.S n) with (Datatypes.S a + n) by lia.
Qed.

(** Two nested counting loops whose body adds [v i j] to cell [(i, j)] of
    the matrix that the state [s] represents ([Rep f s]: the cells of that
    matrix are [f]). *)
Section cell_loops.
Context {S : Type} (n : nat).
Variable Rep : (nat -> nat -> R) -> S -> Prop.
Variable v : nat -> nat -> R.
Variable cell : nat -> nat -> S -> result S.

Hypothesis Rep_ext : forall f g s,
  (forall a b, a < n -> b < n -> f a b = g a b) -> Rep f s -> Rep g s.
Hypothesis cell_ok : forall i j f s, i < n -> j < n -> Rep f s ->
  exists s', cell i j s = Ok s' /\
    Rep (fun a b => if decide (a = i /\ b = j)
                    then (f i j + v i j)%R else f a b) s'.

Lemma row_loop_ok (i : nat) (f : nat -> nat -> R) (s : S) :
  i < n -> Rep f s ->
  exists s', for_in (seq 0 n) (fun j s => cell i j s) s = Ok s' /\
    Rep (fun a b => if decide (a = i) then (f a b + v a b)%R else f a b) s'.
Proof using Rep_ext cell_ok.
  intros Hi Hs.
  destruct (for_in_seq_inv
    (fun j s => Rep (fun a b => if decide (a = i /\ b < j)
                             then (f a b + v a b)%R else f a b) s)
    (fun j s => cell i j s) 0 n s) as (s' & Hrun & Hs').
  - eapply Rep_ext; [|exact Hs]. intros a b _ _.
    rewrite decide_False by lia. done.
  - intros j s1 Hj Hs1.
    destruct (cell_ok i j _ s1 Hi ltac:(lia) Hs1) as (s2 & Hc & Hs2).
    exists s2. split; [done|]. eapply Rep_ext; [|exact Hs2].
    intros a b _ _. simpl. repeat case_decide; try lia; try done.
    destruct_and!. by subst.
  - exists s'. split; [done|]. eapply Rep_ext; [|exact Hs'].
    intros a b Ha Hb. simpl. repeat case_decide; try lia; done.
Qed.

Lemma cell_loops_ok (f : nat -> nat -> R) (s : S) :
  Rep f s ->
  exists s',
    for_in (seq 0 n)
      (fun i s => for_in (seq 0 n) (fun j s => cell i j s) s) s = Ok s' /\
    Rep (fun a b => (f a b + v a b)%R) s'.
Proof using Rep_ext cell_ok.
  intros Hs.
  destruct (for_in_seq_inv
    (fun i s => Rep (fun a b => if decide (a < i)
                             then (f a b + v a b)%R else f a b) s)
    (fun i s => for_in (seq 0 n) (fun j s => cell i j s) s) 0 n s)
    as (s' & Hrun & Hs').
  - eapply Rep_ext; [|exact Hs]. intros a b _ _.
    rewrite decide_False by lia. done.
  - intros i s1 Hi Hs1.
    destruct (row_loop_ok i _ s1 ltac:(lia) Hs1) as (s2 & Hc & Hs2).
    exists s2. split; [done|]. eapply Rep_ext; [|exact Hs2].
    intros a b _ _. simpl. repeat case_decide; try lia; done.
  - exists s'. split; [done|]. eapply Rep_ext; [|exact Hs'].
    intros a b Ha Hb. simpl. rewrite decide_True by lia. done.
Qed.
End cell_loops.

Lemma mat_rep_ext (n : nat) (f g : nat -> nat -> R) (m : matrix) :
  (forall a b, a < n -> b < n -> f a b = g a b) ->
  mat_rep n f m -> mat_rep n g m.
Proof.
  intros Hfg [Hm Hf]. split; [done|].
  intros a b Ha Hb. rewrite Hf by done. by apply Hfg.
Qed.

(** ** The density matrix *)

Local Open Scope R_scope.

(** The innermost loop of [form_density_matrix] adds the occupied
    orbitals' products to cell [(i, j)]. *)
Lemma density_cell_ok (n K : nat) (C : matrix) (i j : nat)
    (f : nat -> nat -> R) (Duv : matrix) :
  is_matrix n n C -> (K <= n)%nat -> (i < n)%nat -> (j < n)%nat ->
  mat_rep n f Duv ->
  exists Duv',
    for_in (seq 0 K) (fun k Duv =>
      old ← getitem2 Duv i j;
      cik ← getitem2 C i k;
      cjk ← getitem2 C j k;
      setitem2 Duv i j (old + 2 * cik * cjk)) Duv = Ok Duv' /\
    mat_rep n (fun a b =>
      if decide (a = i /\ b = j)
      then f i j + bigsum K (fun k => 2 * at2 C i k * at2 C j k)
      else f a b) Duv'.
Proof.
  intros HC HK Hi Hj HD.
  destruct (for_in_seq_inv
    (fun k Duv => mat_rep n (fun a b =>
       if decide (a = i /\ b = j)
       then f i j + bigsum k (fun k => 2 * at2 C i k * at2 C j k)
       else f a b) Duv)
    (fun k Duv =>
      old ← getitem2 Duv i j;
      cik ← getitem2 C i k;
      cjk ← getitem2 C j k;
      setitem2 Duv i j (old + 2 * cik * cjk)) 0 K Duv) as (D' & Hrun & HD').
  - eapply mat_rep_ext; [|exact HD]. intros a b _ _. simpl.
    case_decide as Hab; [|done]. destruct Hab as [-> ->].
    rewrite bigsum_0. lra.
  - intros k m Hk [Hm Hcells].
    rewrite (getitem2_ok n n m i j) by done. simpl.
    rewrite (getitem2_ok n n C i k) by (done || lia). simpl.
    rewrite (getitem2_ok n n C j k) by (done || lia). simpl.
    destruct (setitem2_ok n n m i j
      (at2 m i j + 2 * at2 C i k * at2 C j k) Hm Hi Hj)
      as (m' & -> & Hm' & Hcells').
    exists m'. split; [done|]. split; [done|].
    intros a b Ha Hb. rewrite Hcells'.
    case_decide as Hab.
    + destruct Hab as [-> ->]. rewrite Hcells by done.
      rewrite decide_True by done. rewrite bigsum_S. lra.
    + rewrite Hcells by done. by rewrite decide_False.
  - exists D'. split; [done|]. exact HD'.
Qed.

(** What [form_density_matrix] returns when the occupation count fits. *)
Lemma form_density_matrix_run (mol_ : molecule) (C : matrix) :
  let N := nao mol_ in
  let K := Z.to_nat (nelec mol_).1 in
  is_matrix N N C -> (K <= N)%nat ->
  exists D, form_density_matrix mol_ C = Ok D /\ is_matrix N N D /\
    forall i j, (i < N)%nat -> (j < N)%nat ->
      at2 D i j = 2 * bigsum K (fun k => at2 C i k * at2 C j k).
Proof.
  intros N K HC HK.
  destruct (cell_loops_ok N (mat_rep N)
    (fun i j => bigsum K (fun k => 2 * at2 C i k * at2 C j k))
    (fun i j Duv =>
      for_in (seq 0 K) (fun k Duv =>
        old ← getitem2 Duv i j;
        cik ← getitem2 C i k;
        cjk ← getitem2 C j k;
        setitem2 Duv i j (old + 2 * cik * cjk)) Duv)
    (mat_rep_ext N)
    (fun i j f s Hi Hj Hs => density_cell_ok N K C i j f s HC HK Hi Hj Hs)
    (fun _ _ => 0) (np_zeros N N)) as (D & Hrun & HD & Hcells).
  - split; [apply np_zeros_is_matrix|]. intros a b _ _. apply at2_np_zeros.
  - exists D. split; [|split; [done|]].
    + unfold form_density_matrix, py_range. rewrite Nat2Z.id. exact Hrun.
    + intros i j Hi Hj. rewrite Hcells by done.
      rewrite <- bigsum_scal. rewrite Rplus_0_l.
      apply bigsum_ext; intros k _. lra.
Qed.

Lemma for_in_skip {A S} (l : list A) (body : A -> S -> result S) (s : S) :
  (forall x s, body x s = Ok s) -> for_in l body s = Ok s.
Proof.
  intros Hb. induction l as [|x l IH]; [reflexivity|].
  simpl. rewrite Hb. exact IH.
Qed.

(** Without occupied orbitals no cell is touched, whatever [mo_coeffs_]. *)
Lemma form_density_matrix_no_occ (mol_ : molecule) (C : matrix) :
  Z.to_nat (nelec mol_).1 = 0%nat ->
  form_density_matrix mol_ C = Ok (np_zeros (nao mol_) (nao mol_)).
Proof.
  intros HK. unfold form_density_matrix, py_range. rewrite HK.
  apply for_in_skip; intros i s. apply for_in_skip; intros j s'. reflexivity.
Qed.

(** The quadratic form of twice a Gram matrix is twice a sum of squares. *)
Lemma quad_form_gram (N K : nat) (C D : matrix) (x : nat -> R) :
  (forall i j, (i < N)%nat -> (j < N)%nat ->
     at2 D i j = 2 * bigsum K (fun k => at2 C i k * at2 C j k)) ->
  quad_form N D x =
  2 * bigsum K (fun k =>
        bigsum N (fun i => x i * at2 C i k) *
        bigsum N (fun i => x i * at2 C i k)).
Proof.
  intros HD. unfold quad_form.
  set (Y := fun k => bigsum N (fun i => x i * at2 C i k)).
  set (T := fun i j k => 2 * ((x i * at2 C i k) * (x j * at2 C j k))).
  transitivity (bigsum N (fun i => bigsum N (fun j => bigsum K (T i j)))).
  { apply bigsum_ext; intros i Hi. apply bigsum_ext; intros j Hj.
    rewrite HD by done.
    transitivity
      ((2 * x i * x j) * bigsum K (fun k => at2 C i k * at2 C j k));
      [ring|].
    rewrite <- bigsum_scal. apply bigsum_ext; intros k _. unfold T. ring. }
  transitivity
    (bigsum K (fun k => bigsum N (fun i => bigsum N (fun j => T i j k)))).
  { transitivity
      (bigsum N (fun i => bigsum K (fun k => bigsum N (fun j => T i j k)))).
    - apply bigsum_ext; intros i _.
      apply (bigsum_exchange N K (fun j k => T i j k)).
    - apply (bigsum_exchange N K (fun i k => bigsum N (fun j => T i j k))). }
  rewrite <- bigsum_scal. apply bigsum_ext; intros k _.
  transitivity (bigsum N (fun i => 2 * (x i * at2 C i k) * Y k)).
  { apply bigsum_ext; intros i _. unfold Y at 1.
    rewrite <- bigsum_scal. apply bigsum_ext; intros j _. unfold T. ring. }
  rewrite bigsum_scal_r, bigsum_scal. unfold Y. ring.
Qed.

Ltac solve_is_matrix := split; [reflexivity | repeat constructor].

(** C5.  For an [N] by [N] coefficient matrix [C] and an occupation count
    [0 <= n_occ <= N], [form_density_matrix] returns the [N] by [N] matrix
    [D] with [D[i,j] = 2 * sum_{k < n_occ} C[i,k] * C[j,k]]; only the first
    [n_occ] columns of [C] take part: a coefficient matrix that agrees with
    [C] on them gives the same [D]. *)
Theorem form_density_matrix_spec (mol_ : molecule) (C : matrix) :
  let N := nao mol_ in
  let n_occ := (nelec mol_).1 in
  is_matrix N N C -> (0 <= n_occ <= Z.of_nat N)%Z ->
  exists D, form_density_matrix mol_ C = Ok D /\ is_matrix N N D /\
    (forall i j, (i < N)%nat -> (j < N)%nat ->
       at2 D i j =
       2 * bigsum (Z.to_nat n_occ) (fun k => at2 C i k * at2 C j k)) /\
    (forall C', is_matrix N N C' ->
       (forall i k, (i < N)%nat -> (k < Z.to_nat n_occ)%nat ->
          at2 C' i k = at2 C i k) ->
       form_density_matrix mol_ C' = Ok D).
Proof.
  intros N n_occ HC Hocc.
  destruct (form_density_matrix_run mol_ C HC) as (D & Hrun & HD & Hcells);
    [fold n_occ; lia|].
  exists D. split; [done|]. split; [done|]. split; [exact Hcells|].
  intros C' HC' Hagree.
  destruct (form_density_matrix_run mol_ C' HC') as (D' & -> & HD' & Hcells');
    [fold n_occ; lia|].
  f_equal. apply (matrix_ext N N); try done.
  intros i j Hi Hj. rewrite Hcells, Hcells' by done. f_equal.
  apply bigsum_ext; intros k Hk. by rewrite !Hagree.
Qed.

Lemma form_density_matrix_spec_witness :
  exists D, form_density_matrix (Mole [] [] 2 (1%Z, 1%Z)) [[1; 2]; [3; 4]]
            = Ok D /\ is_matrix 2 2 D.
Proof.
  destruct (form_density_matrix_spec (Mole [] [] 2 (1%Z, 1%Z))
              [[1; 2]; [3; 4]]) as (D & Hrun & HD & _).
  - solve_is_matrix.
  - simpl. lia.
  - exists D. split; [exact Hrun|exact HD].
Defined.

(** C10.  For every real [N] by [N] coefficient matrix and every
    [0 <= n_occ <= N] the matrix that [form_density_matrix] returns is
    symmetric and positive semidefinite, and it is the zero matrix when
    [n_occ = 0]. *)
Theorem form_density_matrix_symmetric_psd (mol_ : molecule) (C : matrix) :
  let N := nao mol_ in
  let n_occ := (nelec mol_).1 in
  is_matrix N N C -> (0 <= n_occ <= Z.of_nat N)%Z ->
  exists D, form_density_matrix mol_ C = Ok D /\
    symmetric N D /\
    (forall x : nat -> R, 0 <= quad_form N D x) /\
    (n_occ = 0%Z -> D = np_zeros N N).
Proof.
  intros N n_occ HC Hocc.
  destruct (form_density_matrix_run mol_ C HC) as (D & Hrun & HD & Hcells);
    [fold n_occ; lia|].
  exists D. split; [done|]. split; [|split].
  - intros i j Hi Hj. rewrite !Hcells by done. f_equal.
    apply bigsum_ext; intros k _. lra.
  - intros x. rewrite (quad_form_gram N _ C D x Hcells).
    assert (0 <= bigsum (Z.to_nat (nelec mol_).1) (fun k =>
      bigsum N (fun i => x i * at2 C i k) *
      bigsum N (fun i => x i * at2 C i k))); [|lra].
    apply bigsum_nonneg; intros k _. nra.
  - intros H0. rewrite form_density_matrix_no_occ in Hrun.
    + by injection Hrun as <-.
    + fold n_occ. by rewrite H0.
Qed.

Lemma form_density_matrix_symmetric_psd_witness :
  exists D, form_density_matrix (Mole [] [] 2 (1%Z, 1%Z)) [[1; 2]; [3; 4]]
            = Ok D /\ symmetric 2 D.
Proof.
  destruct (form_density_matrix_symmetric_psd (Mole [] [] 2 (1%Z, 1%Z))
              [[1; 2]; [3; 4]]) as (D & Hrun & HD & _).
  - solve_is_matrix.
  - simpl. lia.
  - exists D. split; [exact Hrun|exact HD].
Defined.

(** C6, as the code has it.  [form_density_matrix] does not check the
    occupation count.  With a negative count it returns the zero matrix; with
    a count above [N >= 1] it fails with the [IndexError] of the first
    column read outside [mo_coeffs_], inside the loops. *)
Theorem form_density_matrix_bad_count (mol_ : molecule) (C : matrix) :
  let N := nao mol_ in
  let n_occ := (nelec mol_).1 in
  is_matrix N N C ->
  ((n_occ < 0)%Z -> form_density_matrix mol_ C = Ok (np_zeros N N)) /\
  ((Z.of_nat N < n_occ)%Z -> (1 <= N)%nat ->
     form_density_matrix mol_ C = Raise IndexError).
Proof.
  intros N n_occ HC. split.
  - intros Hneg. apply form_density_matrix_no_occ. fold n_occ. lia.
  - intros Hbig HN.
    unfold form_density_matrix, py_range. rewrite Nat2Z.id.
    fold N n_occ.
    assert (exists r, seq 0 N = 0%nat :: r) as [r ->].
    { destruct N; [lia|]. simpl. eauto. }
    assert (seq 0 (Z.to_nat n_occ) =
            seq 0 N ++ N :: seq (S N) (Z.to_nat n_occ - S N)) as ->.
    { replace (Z.to_nat n_occ) with (N + S (Z.to_nat n_occ - S N))%nat
        at 1 by lia.
      rewrite seq_app. reflexivity. }
    cbn [for_in]. rewrite for_in_app.
    destruct (density_cell_ok N N C 0 0 (fun _ _ => 0) (np_zeros N N))
      as (D' & -> & HD' & _); try done; try lia.
    { split; [apply np_zeros_is_matrix|]. intros a b _ _. apply at2_np_zeros. }
    cbn [mbind result_bind for_in].
    rewrite (getitem2_ok N N D' 0 0) by (done || lia).
    rewrite (getitem2_column_out N N C 0 N) by (done || lia).
    reflexivity.
Qed.

Lemma form_density_matrix_bad_count_witness :
  form_density_matrix (Mole [] [] 1 (2%Z, 2%Z)) [[1]] = Raise IndexError.
Proof.
  apply (form_density_matrix_bad_count (Mole [] [] 1 (2%Z, 2%Z)) [[1]]).
  - solve_is_matrix.
  - simpl. lia.
  - simpl. lia.
Defined.

(** C6 as stated fails: with [n_occ = -1] and [N = 1] no error is raised,
    the zero matrix is returned. *)
Lemma form_density_matrix_negative_count_no_error :
  let mol_ := Mole [] [] 1 ((-1)%Z, 0%Z) in
  ((nelec mol_).1 < 0)%Z /\
  form_density_matrix mol_ [[1]] = Ok [[0]] /\
  ~ exists e, form_density_matrix mol_ [[1]] = Raise e.
Proof.
  split; [simpl; lia|]. split; [reflexivity|].
  intros [e He]. discriminate He.
Qed.

(** ** The nuclear repulsion energy *)

(** The distance between two atoms, as the first loop stores it. *)
Lemma norm_unit_x : np_linalg_norm (vec3_sub (0, 0, 0) (1, 0, 0)) = 1.
Proof.
  unfold np_linalg_norm, vec3_sub.
  replace ((0 - 1) * (0 - 1) + (0 - 0) * (0 - 0) + (0 - 0) * (0 - 0))
    with 1 by ring.
  apply sqrt_1.
Qed.

Lemma norm_same_point (p : vec3) : np_linalg_norm (vec3_sub p p) = 0.
Proof.
  destruct p as [[x y] z]. unfold np_linalg_norm, vec3_sub.
  replace ((x - x) * (x - x) + (y - y) * (y - y) + (z - z) * (z - z))
    with 0 by ring.
  apply sqrt_0.
Qed.

(** C3, at the code.  For the molecule of the claim (two atoms of charge 1
    at distance 1) the function does not return 1.0: the inner loop runs
    over [range(coords.shape[1])], that is over 0, 1, 2, and reading
    [coords[2]] raises [IndexError]. *)
Theorem calc_nuclear_repulsion_energy_two_atoms_unit :
  let mol_ := Mole [1; 1] [(0, 0, 0); (1, 0, 0)] 2 (1%Z, 1%Z) in
  np_linalg_norm (vec3_sub (0, 0, 0) (1, 0, 0)) = 1 /\
  calc_nuclear_repulsion_energy mol_ = Raise IndexError.
Proof.
  split; [apply norm_unit_x|reflexivity].
Qed.

(** C2, at the code.  The loops are bounded by [coords.shape[1] = 3] and
    the distance matrix is 3 by 3 whatever the number of atoms: for every
    molecule whose number of atoms is neither 0 nor 3 the function raises
    [IndexError] instead of returning the pair sum. *)
Theorem calc_nuclear_repulsion_energy_needs_three_atoms (mol_ : molecule) :
  length (atom_coords mol_) <> 0%nat ->
  length (atom_coords mol_) <> 3%nat ->
  calc_nuclear_repulsion_energy mol_ = Raise IndexError.
Proof.
  destruct mol_ as [charges coords n e]. simpl. intros H0 H3.
  destruct coords as [|c0 [|c1 [|c2 [|c3 rest]]]]; simpl in H0, H3;
    try lia; reflexivity.
Qed.

Lemma calc_nuclear_repulsion_energy_needs_three_atoms_witness :
  calc_nuclear_repulsion_energy
    (Mole [1; 1; 1; 1] [(0, 0, 0); (1, 0, 0); (0, 1, 0); (0, 0, 1)]
       2 (2%Z, 2%Z)) = Raise IndexError.
Proof.
  apply calc_nuclear_repulsion_energy_needs_three_atoms; simpl; lia.
Defined.

(** C4, as the code has it.  No distance is checked.  For three atoms the
    function never raises, also when atoms coincide: it returns a value
    (numpy's [inf] or [nan] when a distance is zero; the model does not say
    which).  When the three positions are pairwise distinct the value is
    the sum of [q_i * q_j / d_ij] over the pairs [i < j]. *)
Theorem calc_nuclear_repulsion_energy_three_atoms
    (q0 q1 q2 : R) (c0 c1 c2 : vec3) (n : nat) (e : Z * Z) :
  (exists v,
     calc_nuclear_repulsion_energy (Mole [q0; q1; q2] [c0; c1; c2] n e)
       = Ok v) /\
  (c0 <> c1 -> c0 <> c2 -> c1 <> c2 ->
   calc_nuclear_repulsion_energy (Mole [q0; q1; q2] [c0; c1; c2] n e) =
   Ok (0 + q0 * q1 / np_linalg_norm (vec3_sub c0 c1)
         + q0 * q2 / np_linalg_norm (vec3_sub c0 c2)
         + q1 * q2 / np_linalg_norm (vec3_sub c1 c2))).
Proof.
  split.
  - eexists. reflexivity.
  - intros _ _ _. reflexivity.
Qed.

Lemma calc_nuclear_repulsion_energy_three_atoms_witness :
  calc_nuclear_repulsion_energy
    (Mole [8; 1; 1] [(0, 0, 0); (1, 0, 0); (0, 1, 0)] 7 (5%Z, 5%Z)) =
  Ok (0 + 8 * 1 / np_linalg_norm (vec3_sub (0, 0, 0) (1, 0, 0))
        + 8 * 1 / np_linalg_norm (vec3_sub (0, 0, 0) (0, 1, 0))
        + 1 * 1 / np_linalg_norm (vec3_sub (1, 0, 0) (0, 1, 0))).
Proof.
  apply (proj2 (calc_nuclear_repulsion_energy_three_atoms 8 1 1
                  (0, 0, 0) (1, 0, 0) (0, 1, 0) 7 (5%Z, 5%Z))).
  - intros E. inversion E. lra.
  - intros E. inversion E. lra.
  - intros E. inversion E. lra.
Defined.

(** C4 as stated fails: two distinct atoms at the same position, and the
    function returns a value instead of raising. *)
Lemma calc_nuclear_repulsion_energy_zero_distance_no_error :
  let mol_ := Mole [1; 1; 8] [(0, 0, 0); (0, 0, 0); (1, 0, 0)] 7 (5%Z, 5%Z) in
  np_linalg_norm (vec3_sub (0, 0, 0) (0, 0, 0)) = 0 /\
  (exists v, calc_nuclear_repulsion_energy mol_ = Ok v) /\
  ~ exists e, calc_nuclear_repulsion_energy mol_ = Raise e.
Proof.
  split; [apply norm_same_point|]. split.
  - eexists. reflexivity.
  - intros [e He]. discriminate He.
Qed.

(** ** The Fock matrix *)

Lemma M_bind_run {A B} (m : M A) (f : A -> M B) (h h' : heap) (a : A) :
  m h = Ok (a, h') -> (m ≫= f) h = f a h'.
Proof. intros Hm. unfold mbind, M_bind. by rewrite Hm. Qed.

Lemma load_mat_run (r : nat) (h : heap) (m : matrix) :
  h !! r = Some (Mat m) -> load_mat r h = Ok (m, h).
Proof. intros Hr. unfold load_mat. by rewrite Hr. Qed.

Lemma load_ten_run (r : nat) (h : heap) (t : tensor4) :
  h !! r = Some (Ten t) -> load_ten r h = Ok (t, h).
Proof. intros Hr. unfold load_ten. by rewrite Hr. Qed.

Lemma lift_run {A} (r : result A) (a : A) (h : heap) :
  r = Ok a -> lift r h = Ok (a, h).
Proof. by intros ->. Qed.

Lemma calc_fock_matrix_unfold (mol_ : molecule) (h_core_ er_ints_ Duv_ : nat) :
  calc_fock_matrix mol_ h_core_ er_ints_ Duv_ =
  (Fuv ← np_copy h_core_;
   _ ← for_in (seq 0 (Z.to_nat (Z.of_nat (nao mol_)))) (fun i (_ : unit) =>
         for_in (seq 0 (Z.to_nat (Z.of_nat (nao mol_)))) (fun j (_ : unit) =>
           fock_cell Fuv er_ints_ Duv_ i j) tt) tt;
   mret Fuv).
Proof. reflexivity. Qed.

(** The sum of an elementwise product, by index. *)
Lemma np_sum_mul (n : nat) (a b : matrix) :
  is_matrix n n a -> is_matrix n n b ->
  np_sum (zip_with (zip_with Rmult) a b) =
  bigsum n (fun k => bigsum n (fun l => at2 a k l * at2 b k l)).
Proof.
  intros Ha Hb.
  rewrite (np_sum_bigsum n n) by by apply zip_rows_is_matrix.
  apply bigsum_ext; intros k Hk. apply bigsum_ext; intros l Hl.
  by apply (at2_zip_rows Rmult n n).
Qed.

Section fock.
Variables (N : nat) (h : heap) (Fuv er_ints_ Duv_ : nat).
Variables (D : matrix) (ERI : tensor4).
Hypothesis HD : h !! Duv_ = Some (Mat D).
Hypothesis HE : h !! er_ints_ = Some (Ten ERI).
Hypothesis HF : h !! Fuv = None.
Hypothesis HDm : is_matrix N N D.
Hypothesis HEt : is_tensor4 N ERI.

Lemma fock_rep_ext (f g : nat -> nat -> R) (sh : unit * heap) :
  (forall a b, (a < N)%nat -> (b < N)%nat -> f a b = g a b) ->
  fock_rep N h Fuv f sh -> fock_rep N h Fuv g sh.
Proof.
  intros Hfg (m & Hh & Hm). exists m. split; [done|].
  by apply (mat_rep_ext N f g).
Qed.

Lemma fock_cell_ok (i j : nat) (f : nat -> nat -> R) (sh : unit * heap) :
  (i < N)%nat -> (j < N)%nat -> fock_rep N h Fuv f sh ->
  exists sh', fock_cell Fuv er_ints_ Duv_ i j sh.2 = Ok sh' /\
    fock_rep N h Fuv (fun a b =>
      if decide (a = i /\ b = j)
      then f i j + (coulomb N D ERI i j - 0.5 * exchange_code N D ERI i j)
      else f a b) sh'.
Proof using HD HE HF HDm HEt.
  intros Hi Hj (m & Hh & Hm & Hcells). destruct sh as [[] h1].
  simpl in Hh. subst h1. simpl.
  assert (Fuv <> Duv_) as HFD by (intros ->; congruence).
  assert (Fuv <> er_ints_) as HFE by (intros ->; congruence).
  destruct (getitem4_ij_ok N ERI i j HEt Hi Hj) as (Eij & HEij & HEijm & Hat).
  destruct (getitem4_i_j_ok N ERI i j HEt Hi Hj)
    as (Ei_j & HEi_j & HEi_jm & Hat').
  destruct (setitem2_ok N N m i j
    (at2 m i j + (np_sum (zip_with (zip_with Rmult) D Eij) -
                  0.5 * np_sum (zip_with (zip_with Rmult) D Ei_j)))
    Hm Hi Hj) as (m' & Hset & Hm' & Hcells').
  exists (tt, <[Fuv := Mat m']> h). split.
  - unfold fock_cell.
    erewrite M_bind_run
      by (apply load_mat_run; apply lookup_insert_eq).
    erewrite M_bind_run
      by (apply lift_run; by apply (getitem2_ok N N)).
    erewrite M_bind_run
      by (apply load_mat_run; by rewrite lookup_insert_ne).
    erewrite M_bind_run
      by (apply load_ten_run; by rewrite lookup_insert_ne).
    erewrite M_bind_run by (apply lift_run; exact HEij).
    erewrite M_bind_run
      by (apply lift_run; by apply (np_mul_ok N N)).
    erewrite M_bind_run
      by (apply load_mat_run; by rewrite lookup_insert_ne).
    erewrite M_bind_run
      by (apply load_ten_run; by rewrite lookup_insert_ne).
    erewrite M_bind_run by (apply lift_run; exact HEi_j).
    erewrite M_bind_run
      by (apply lift_run; by apply (np_mul_ok N N)).
    erewrite M_bind_run
      by (apply load_mat_run; apply lookup_insert_eq).
    erewrite M_bind_run by (apply lift_run; exact Hset).
    unfold store_mat. by rewrite insert_insert_eq.
  - exists m'. split; [done|]. split; [done|].
    intros a b Ha Hb. rewrite Hcells'. case_decide as Hab; [|by apply Hcells].
    rewrite Hcells by done.
    rewrite (np_sum_mul N D Eij), (np_sum_mul N D Ei_j) by done.
    unfold coulomb, exchange_code. f_equal. f_equal; [|f_equal].
    + apply bigsum_ext; intros k _. apply bigsum_ext; intros l _.
      by rewrite Hat.
    + apply bigsum_ext; intros k Hk. apply bigsum_ext; intros l Hl.
      by rewrite Hat'.
Qed.
End fock.

(** What [calc_fock_matrix] does on a heap that holds well-shaped inputs:
    it allocates one new matrix and returns its reference. *)
Lemma calc_fock_matrix_run (mol_ : molecule) (h : heap)
    (h_core_ er_ints_ Duv_ : nat) (H D : matrix) (ERI : tensor4) :
  let N := nao mol_ in
  h !! h_core_ = Some (Mat H) ->
  h !! er_ints_ = Some (Ten ERI) ->
  h !! Duv_ = Some (Mat D) ->
  is_matrix N N H -> is_matrix N N D -> is_tensor4 N ERI ->
  exists F,
    calc_fock_matrix mol_ h_core_ er_ints_ Duv_ h =
      Ok (fresh (dom h), <[fresh (dom h) := Mat F]> h) /\
    h !! fresh (dom h) = None /\
    is_matrix N N F /\
    forall i j, (i < N)%nat -> (j < N)%nat ->
      at2 F i j =
      at2 H i j + (coulomb N D ERI i j - 0.5 * exchange_code N D ERI i j).
Proof.
  intros N HH HE HD HHm HDm HEt.
  set (l := fresh (dom h)).
  assert (h !! l = None) as Hl by apply not_elem_of_dom, is_fresh.
  destruct (cell_loops_ok N (fock_rep N h l)
    (fun i j => coulomb N D ERI i j - 0.5 * exchange_code N D ERI i j)
    (fun i j sh => fock_cell l er_ints_ Duv_ i j sh.2)
    (fock_rep_ext N h l)
    (fock_cell_ok N h l er_ints_ Duv_ D ERI HD HE Hl HDm HEt)
    (at2 H) (tt, <[l := Mat H]> h)) as ([[] h'] & Hrun & F & Hh' & HF & Hcells).
  { exists H. split; [done|]. split; [done|]. done. }
  simpl in Hh'. subst h'.
  exists F. split; [|done].
  rewrite calc_fock_matrix_unfold, Nat2Z.id. fold N.
  erewrite M_bind_run; [|unfold np_copy; rewrite HH; reflexivity].
  fold l. erewrite M_bind_run; [reflexivity|].
  rewrite for_in_M. rewrite <- Hrun.
  apply for_in_ext. intros i [[] h1]. simpl. rewrite for_in_M. reflexivity.
Qed.

(** The exchange contraction of the code is the one of the specification
    when the density is symmetric and the integrals have their symmetry. *)
Lemma exchange_code_spec (N : nat) (D : matrix) (ERI : tensor4) (i j : nat) :
  symmetric N D -> eri_symmetric N ERI -> (i < N)%nat -> (j < N)%nat ->
  exchange_code N D ERI i j =
  bigsum N (fun k => bigsum N (fun l => at2 D k l * at4 ERI i l k j)).
Proof.
  intros HD HE Hi Hj. unfold exchange_code.
  rewrite (bigsum_exchange N N (fun k l => at2 D k l * at4 ERI i l k j)).
  apply bigsum_ext; intros a Ha. apply bigsum_ext; intros b Hb.
  rewrite (HD a b) by done.
  destruct (HE i a j b Hi Ha Hj Hb) as (_ & -> & _). reflexivity.
Qed.

Lemma coulomb_sym (N : nat) (D : matrix) (ERI : tensor4) (i j : nat) :
  eri_symmetric N ERI -> (i < N)%nat -> (j < N)%nat ->
  coulomb N D ERI i j = coulomb N D ERI j i.
Proof.
  intros HE Hi Hj. unfold coulomb.
  apply bigsum_ext; intros k Hk. apply bigsum_ext; intros l Hl.
  destruct (HE i j k l Hi Hj Hk Hl) as (-> & _). reflexivity.
Qed.

Lemma exchange_code_sym (N : nat) (D : matrix) (ERI : tensor4) (i j : nat) :
  symmetric N D -> eri_symmetric N ERI -> (i < N)%nat -> (j < N)%nat ->
  exchange_code N D ERI i j = exchange_code N D ERI j i.
Proof.
  intros HD HE Hi Hj. unfold exchange_code.
  rewrite (bigsum_exchange N N (fun a b => at2 D a b * at4 ERI j a i b)).
  apply bigsum_ext; intros a Ha. apply bigsum_ext; intros b Hb.
  rewrite (HD a b) by done.
  destruct (HE i a j b Hi Ha Hj Hb) as (_ & _ & ->). reflexivity.
Qed.









Lemma example_shapes :
  is_matrix 2 2 example_H /\ is_matrix 2 2 example_D /\
  is_tensor4 2 example_ERI /\
  symmetric 2 example_H /\ symmetric 2 example_D /\
  eri_symmetric 2 example_ERI.
Proof.
  split; [solve_is_matrix|]. split; [solve_is_matrix|].
  split; [split; [reflexivity|]; repeat constructor|].
  split; [|split].
  - intros [|[|i]] [|[|j]] Hi Hj; try lia; reflexivity.
  - intros [|[|i]] [|[|j]] Hi Hj; try lia; reflexivity.
  - intros [|[|i]] [|[|j]] [|[|k]] [|[|l]] Hi Hj Hk Hl; try lia;
      repeat split; reflexivity.
Qed.

Lemma example_heap_lookup :
  example_heap !! 0%nat = Some (Mat example_H) /\
  example_heap !! 2%nat = Some (Ten example_ERI) /\
  example_heap !! 1%nat = Some (Mat example_D).
Proof. repeat split; vm_compute; reflexivity. Qed.

(** C1.  On well-shaped inputs, a symmetric density and integrals with
    their permutational symmetry, [calc_fock_matrix] returns a matrix [F]
    with [F[i,j] = H[i,j] + sum_{k,l} D[k,l] * ERI[i,j,k,l]
    - 0.5 * sum_{k,l} D[k,l] * ERI[i,l,k,j]]: the slice [er_ints_[i, :, j]]
    of the code gives the exchange contraction of the specification. *)
Theorem calc_fock_matrix_formula (mol_ : molecule) (h : heap)
    (h_core_ er_ints_ Duv_ : nat) (H D : matrix) (ERI : tensor4) :
  let N := nao mol_ in
  h !! h_core_ = Some (Mat H) ->
  h !! er_ints_ = Some (Ten ERI) ->
  h !! Duv_ = Some (Mat D) ->
  is_matrix N N H -> is_matrix N N D -> is_tensor4 N ERI ->
  symmetric N D -> eri_symmetric N ERI ->
  exists Fuv h' F,
    calc_fock_matrix mol_ h_core_ er_ints_ Duv_ h = Ok (Fuv, h') /\
    h' !! Fuv = Some (Mat F) /\ is_matrix N N F /\
    forall i j, (i < N)%nat -> (j < N)%nat ->
      at2 F i j =
      at2 H i j
      + bigsum N (fun k => bigsum N (fun l => at2 D k l * at4 ERI i j k l))
      - 0.5 *
        bigsum N (fun k => bigsum N (fun l => at2 D k l * at4 ERI i l k j)).
Proof.
  intros N HH HE HD HHm HDm HEt HDs HEs.
  destruct (calc_fock_matrix_run mol_ h h_core_ er_ints_ Duv_ H D ERI
              HH HE HD HHm HDm HEt) as (F & Hrun & _ & HF & Hcells).
  exists (fresh (dom h)), (<[fresh (dom h) := Mat F]> h), F.
  split; [done|]. split; [apply lookup_insert_eq|]. split; [done|].
  intros i j Hi Hj. rewrite Hcells by done.
  rewrite (exchange_code_spec _ D ERI i j) by done.
  subst N. unfold coulomb. lra.
Qed.

Lemma calc_fock_matrix_formula_witness :
  exists Fuv h' F,
    calc_fock_matrix example_mol 0 2 1 example_heap = Ok (Fuv, h') /\
    h' !! Fuv = Some (Mat F) /\ is_matrix 2 2 F.
Proof.
  destruct example_shapes as (HH & HD & HE & _ & HDs & HEs).
  destruct example_heap_lookup as (L0 & L2 & L1).
  destruct (calc_fock_matrix_formula example_mol example_heap
    0%nat 2%nat 1%nat example_H example_D example_ERI
    L0 L2 L1 HH HD HE HDs HEs)
    as (Fuv & h' & F & Hrun & Hl & HF & _).
  exists Fuv, h', F. split; [exact Hrun|]. split; [exact Hl|exact HF].
Defined.

(** C8.  With a symmetric density, a symmetric core Hamiltonian and
    integrals with their permutational symmetry, the matrix that
    [calc_fock_matrix] returns is symmetric. *)
Theorem calc_fock_matrix_symmetric (mol_ : molecule) (h : heap)
    (h_core_ er_ints_ Duv_ : nat) (H D : matrix) (ERI : tensor4) :
  let N := nao mol_ in
  h !! h_core_ = Some (Mat H) ->
  h !! er_ints_ = Some (Ten ERI) ->
  h !! Duv_ = Some (Mat D) ->
  is_matrix N N H -> is_matrix N N D -> is_tensor4 N ERI ->
  symmetric N H -> symmetric N D -> eri_symmetric N ERI ->
  exists Fuv h' F,
    calc_fock_matrix mol_ h_core_ er_ints_ Duv_ h = Ok (Fuv, h') /\
    h' !! Fuv = Some (Mat F) /\ is_matrix N N F /\ symmetric N F.
Proof.
  intros N HH HE HD HHm HDm HEt HHs HDs HEs.
  destruct (calc_fock_matrix_run mol_ h h_core_ er_ints_ Duv_ H D ERI
              HH HE HD HHm HDm HEt) as (F & Hrun & _ & HF & Hcells).
  exists (fresh (dom h)), (<[fresh (dom h) := Mat F]> h), F.
  split; [done|]. split; [apply lookup_insert_eq|]. split; [done|].
  intros i j Hi Hj. rewrite !Hcells by done.
  rewrite (HHs i j), (coulomb_sym _ D ERI i j),
    (exchange_code_sym _ D ERI i j) by done.
  reflexivity.
Qed.

Lemma calc_fock_matrix_symmetric_witness :
  exists Fuv h' F,
    calc_fock_matrix example_mol 0 2 1 example_heap = Ok (Fuv, h') /\
    h' !! Fuv = Some (Mat F) /\ symmetric 2 F.
Proof.
  destruct example_shapes as (HH & HD & HE & HHs & HDs & HEs).
  destruct example_heap_lookup as (L0 & L2 & L1).
  destruct (calc_fock_matrix_symmetric example_mol example_heap
    0%nat 2%nat 1%nat example_H example_D example_ERI
    L0 L2 L1 HH HD HE HHs HDs HEs)
    as (Fuv & h' & F & Hrun & Hl & _ & HF).
  exists Fuv, h', F. split; [exact Hrun|]. split; [exact Hl|exact HF].
Defined.



(** ** The total energy *)

(** C7.  For [N] by [N] matrices [F], [H], [D] and a number [E_nuc],
    [calc_tot_energy] returns
    [0.5 * sum_{i,j} D[i,j] * (H[i,j] + F[i,j]) + E_nuc] and leaves the heap
    as it was: it only reads its arguments. *)
Theorem calc_tot_energy_spec (N : nat) (h : heap) (Fuv_ Huv_ Duv_ : nat)
    (Enuc_ : R) (F H D : matrix) :
  h !! Fuv_ = Some (Mat F) ->
  h !! Huv_ = Some (Mat H) ->
  h !! Duv_ = Some (Mat D) ->
  is_matrix N N F -> is_matrix N N H -> is_matrix N N D ->
  calc_tot_energy Fuv_ Huv_ Duv_ Enuc_ h =
  Ok (0.5 * bigsum N (fun i => bigsum N (fun j =>
              at2 D i j * (at2 H i j + at2 F i j))) + Enuc_, h).
Proof.
  intros HF HH HD HFm HHm HDm. unfold calc_tot_energy.
  assert (is_matrix N N (zip_with (zip_with Rplus) H F)) as HHF
    by by apply zip_rows_is_matrix.
  erewrite M_bind_run by (by apply load_mat_run).
  erewrite M_bind_run by (by apply load_mat_run).
  erewrite M_bind_run by (by apply load_mat_run).
  erewrite M_bind_run by (apply lift_run; by apply (np_add_ok N N)).
  erewrite M_bind_run by (apply lift_run; by apply (np_mul_ok N N)).
  unfold mret, M_ret. f_equal. f_equal. f_equal. f_equal.
  rewrite (np_sum_mul N) by done.
  apply bigsum_ext; intros i Hi. apply bigsum_ext; intros j Hj.
  by rewrite (at2_zip_rows Rplus N N).
Qed.

Lemma calc_tot_energy_spec_witness :
  calc_tot_energy 0 0 1 3 example_heap =
  Ok (0.5 * bigsum 2 (fun i => bigsum 2 (fun j =>
              at2 example_D i j * (at2 example_H i j + at2 example_H i j)))
      + 3, example_heap).
Proof.
  destruct example_shapes as (HH & HD & _).
  destruct example_heap_lookup as (L0 & _ & L1).
  exact (calc_tot_energy_spec 2 example_heap 0 0 1 3
           example_H example_H example_D L0 L0 L1 HH HH HD).
Defined.

(** ** The code on small inputs *)

(** One occupied orbital out of two: only column 0 of the coefficients
    enters the density. *)
Example form_density_matrix_one_occupied :
  form_density_matrix example_mol [[1; 2]; [3; 4]] =
  Ok [[0 + 2 * 1 * 1; 0 + 2 * 1 * 3]; [0 + 2 * 3 * 1; 0 + 2 * 3 * 3]].
Proof. reflexivity. Qed.

(** The Fock matrix of the small instance, cell by cell:
    [F[0,0] = 1 + (8 - 0.5 * 12)], [F[0,1] = F[1,0] = 2 + (18 - 0.5 * 17)]
    and [F[1,1] = 3 + (28 - 0.5 * 30)]. *)
Example calc_fock_matrix_example :
  exists F h',
    calc_fock_matrix example_mol 0 2 1 example_heap = Ok (3%nat, h') /\
    h' !! 3%nat = Some (Mat F) /\
    at2 F 0 0 = 3 /\ at2 F 0 1 = 11.5 /\ at2 F 1 0 = 11.5 /\
    at2 F 1 1 = 16.
Proof.
  destruct example_shapes as (HH & HD & HE & _).
  destruct example_heap_lookup as (L0 & L2 & L1).
  destruct (calc_fock_matrix_run example_mol example_heap 0 2 1
              example_H example_D example_ERI L0 L2 L1 HH HD HE)
    as (F & Hrun & _ & _ & Hcells).
  exists F, (<[3%nat := Mat F]> example_heap).
  split; [exact Hrun|]. split; [apply lookup_insert_eq|].
  simpl in Hcells.
  rewrite !Hcells by lia.
  unfold coulomb, exchange_code, bigsum, at4, at2. simpl.
  repeat split; lra.
Qed.

(** Three atoms on a line, unit charges: the three pair terms. *)
Example calc_nuclear_repulsion_energy_line :
  calc_nuclear_repulsion_energy
    (Mole [1; 1; 1] [(0, 0, 0); (1, 0, 0); (2, 0, 0)] 3 (1%Z, 1%Z)) =
  Ok (0 + 1 * 1 / np_linalg_norm (vec3_sub (0, 0, 0) (1, 0, 0))
        + 1 * 1 / np_linalg_norm (vec3_sub (0, 0, 0) (2, 0, 0))
        + 1 * 1 / np_linalg_norm (vec3_sub (1, 0, 0) (2, 0, 0))).
Proof. reflexivity. Qed.

(** * Further properties of the code *)

(** ** [calc_nuclear_repulsion_energy] *)

(** The value of the model for three atoms; it is the value of the code
    when no distance is zero. *)
Lemma nuclear_three_atoms_value
    (q0 q1 q2 : R) (c0 c1 c2 : vec3) (n : nat) (e : Z * Z) :
  calc_nuclear_repulsion_energy (Mole [q0; q1; q2] [c0; c1; c2] n e) =
  Ok (0 + q0 * q1 / np_linalg_norm (vec3_sub c0 c1)
        + q0 * q2 / np_linalg_norm (vec3_sub c0 c2)
        + q1 * q2 / np_linalg_norm (vec3_sub c1 c2)).
Proof. reflexivity. Qed.

Lemma norm_sub_comm (u v : vec3) :
  np_linalg_norm (vec3_sub u v) = np_linalg_norm (vec3_sub v u).
Proof.
  destruct u as [[ux uy] uz], v as [[vx vy] vz].
  unfold np_linalg_norm, vec3_sub. f_equal. ring.
Qed.

Lemma norm_sub_shift (u v t : vec3) :
  np_linalg_norm (vec3_sub (vec3_add u t) (vec3_add v t)) =
  np_linalg_norm (vec3_sub u v).
Proof.
  destruct u as [[ux uy] uz], v as [[vx vy] vz], t as [[tx ty] tz].
  unfold np_linalg_norm, vec3_sub, vec3_add. f_equal. ring.
Qed.

Lemma norm_sub_pos (u v : vec3) :
  u <> v -> 0 < np_linalg_norm (vec3_sub u v).
Proof.
  destruct u as [[ux uy] uz], v as [[vx vy] vz]. intros Huv.
  unfold np_linalg_norm, vec3_sub. apply sqrt_lt_R0.
  assert (forall a b : R, a <> b -> 0 < (a - b) * (a - b)) as Hsq.
  { intros a b Hab. destruct (Rdichotomy a b Hab); nra. }
  assert (forall a b : R, 0 <= (a - b) * (a - b)) as Hsq0
    by (intros a b; apply (Rle_0_sqr (a - b))).
  pose proof (Hsq0 ux vx). pose proof (Hsq0 uy vy). pose proof (Hsq0 uz vz).
  destruct (Req_dec ux vx) as [->|Hx]; [|pose proof (Hsq _ _ Hx); lra].
  destruct (Req_dec uy vy) as [->|Hy]; [|pose proof (Hsq _ _ Hy); lra].
  destruct (Req_dec uz vz) as [->|Hz]; [|pose proof (Hsq _ _ Hz); lra].
  by destruct Huv.
Qed.

(** X1.  With as many charges as atoms, [calc_nuclear_repulsion_energy]
    returns a value exactly when the molecule has no atom or three atoms;
    with no atom the value is 0. *)
Theorem calc_nuclear_repulsion_energy_returns_iff (mol_ : molecule) :
  length (atom_charges mol_) = length (atom_coords mol_) ->
  ((exists v, calc_nuclear_repulsion_energy mol_ = Ok v) <->
   (length (atom_coords mol_) = 0%nat \/ length (atom_coords mol_) = 3%nat))
  /\ (length (atom_coords mol_) = 0%nat ->
      calc_nuclear_repulsion_energy mol_ = Ok 0).
Proof.
  destruct mol_ as [charges coords n e]. simpl. intros Hlen.
  destruct coords as [|c0 [|c1 [|c2 [|c3 rest]]]]; simpl in *.
  - split; [|reflexivity]. split; [auto|]. intros _. by exists 0.
  - split; [|lia]. split; [intros [v Hv]; discriminate Hv|lia].
  - split; [|lia]. split; [intros [v Hv]; discriminate Hv|lia].
  - split; [|lia]. split; [auto|]. intros _.
    destruct charges as [|q0 [|q1 [|q2 [|q3 qs]]]]; simpl in Hlen; try lia.
    eexists. apply nuclear_three_atoms_value.
  - split; [|lia]. split; [intros [v Hv]; discriminate Hv|lia].
Qed.

Lemma calc_nuclear_repulsion_energy_returns_iff_witness :
  exists v, calc_nuclear_repulsion_energy
    (Mole [8; 1; 1] [(0, 0, 0); (1, 0, 0); (0, 1, 0)] 7 (5%Z, 5%Z)) = Ok v.
Proof.
  apply (calc_nuclear_repulsion_energy_returns_iff
    (Mole [8; 1; 1] [(0, 0, 0); (1, 0, 0); (0, 1, 0)] 7 (5%Z, 5%Z)) eq_refl).
  right. reflexivity.
Defined.

(** X2.  For three atoms the value does not depend on the order in which the
    atoms are listed: exchanging the first two atoms, or the last two, gives
    the same energy (in exact arithmetic). *)
Theorem calc_nuclear_repulsion_energy_atom_order
    (q0 q1 q2 : R) (c0 c1 c2 : vec3) (n : nat) (e : Z * Z) :
  (exists v,
     calc_nuclear_repulsion_energy (Mole [q0; q1; q2] [c0; c1; c2] n e)
       = Ok v /\
     calc_nuclear_repulsion_energy (Mole [q1; q0; q2] [c1; c0; c2] n e)
       = Ok v /\
     calc_nuclear_repulsion_energy (Mole [q0; q2; q1] [c0; c2; c1] n e)
       = Ok v).
Proof.
  eexists. split; [apply nuclear_three_atoms_value|].
  rewrite !nuclear_three_atoms_value. split; f_equal.
  - rewrite (norm_sub_comm c1 c0). lra.
  - rewrite (norm_sub_comm c2 c1). lra.
Qed.

(** X3.  For three atoms the value does not change when every atom is moved
    by the same vector (in exact arithmetic). *)
Theorem calc_nuclear_repulsion_energy_translation
    (q0 q1 q2 : R) (c0 c1 c2 t : vec3) (n : nat) (e : Z * Z) :
  calc_nuclear_repulsion_energy
    (Mole [q0; q1; q2] [vec3_add c0 t; vec3_add c1 t; vec3_add c2 t] n e) =
  calc_nuclear_repulsion_energy (Mole [q0; q1; q2] [c0; c1; c2] n e).
Proof.
  rewrite !nuclear_three_atoms_value. by rewrite !norm_sub_shift.
Qed.

(** X4.  For three atoms at pairwise distinct positions and with
    non-negative charges the value is a non-negative number, and it is
    positive when the charges are positive. *)
Theorem calc_nuclear_repulsion_energy_nonneg
    (q0 q1 q2 : R) (c0 c1 c2 : vec3) (n : nat) (e : Z * Z) :
  c0 <> c1 -> c0 <> c2 -> c1 <> c2 ->
  0 <= q0 -> 0 <= q1 -> 0 <= q2 ->
  exists v,
    calc_nuclear_repulsion_energy (Mole [q0; q1; q2] [c0; c1; c2] n e)
      = Ok v /\
    0 <= v /\ (0 < q0 -> 0 < q1 -> 0 < q2 -> 0 < v).
Proof.
  intros H01 H02 H12 Hq0 Hq1 Hq2.
  eexists. split; [apply nuclear_three_atoms_value|].
  pose proof (norm_sub_pos c0 c1 H01) as D01.
  pose proof (norm_sub_pos c0 c2 H02) as D02.
  pose proof (norm_sub_pos c1 c2 H12) as D12.
  set (d01 := np_linalg_norm (vec3_sub c0 c1)) in *.
  set (d02 := np_linalg_norm (vec3_sub c0 c2)) in *.
  set (d12 := np_linalg_norm (vec3_sub c1 c2)) in *.
  assert (forall q q' d, 0 <= q -> 0 <= q' -> 0 < d -> 0 <= q * q' / d)
    as Hterm.
  { intros q q' d Hq Hq' Hd. apply Rmult_le_pos; [nra|].
    apply Rlt_le, Rinv_0_lt_compat, Hd. }
  assert (forall q q' d, 0 < q -> 0 < q' -> 0 < d -> 0 < q * q' / d)
    as Hterm'.
  { intros q q' d Hq Hq' Hd. apply Rmult_lt_0_compat; [nra|].
    apply Rinv_0_lt_compat, Hd. }
  split.
  - pose proof (Hterm q0 q1 d01 Hq0 Hq1 D01).
    pose proof (Hterm q0 q2 d02 Hq0 Hq2 D02).
    pose proof (Hterm q1 q2 d12 Hq1 Hq2 D12). lra.
  - intros P0 P1 P2.
    pose proof (Hterm' q0 q1 d01 P0 P1 D01).
    pose proof (Hterm' q0 q2 d02 P0 P2 D02).
    pose proof (Hterm' q1 q2 d12 P1 P2 D12). lra.
Qed.

Lemma calc_nuclear_repulsion_energy_nonneg_witness :
  exists v,
    calc_nuclear_repulsion_energy
      (Mole [8; 1; 1] [(0, 0, 0); (1, 0, 0); (0, 1, 0)] 7 (5%Z, 5%Z))
      = Ok v /\ 0 <= v.
Proof.
  destruct (calc_nuclear_repulsion_energy_nonneg 8 1 1
              (0, 0, 0) (1, 0, 0) (0, 1, 0) 7 (5%Z, 5%Z))
    as (v & Hv & Hpos & _).
  - intros E. inversion E. lra.
  - intros E. inversion E. lra.
  - intros E. inversion E. lra.
  - lra.
  - lra.
  - lra.
  - exists v. split; [exact Hv|exact Hpos].
Defined.

(** ** [calc_hcore_matrix] *)

(** X5.  For [N] by [N] matrices [calc_hcore_matrix] returns the [N] by [N]
    matrix of the sums [T[i,j] + V[i,j]]; the arguments may be exchanged,
    and the result is symmetric when both arguments are. *)
Theorem calc_hcore_matrix_spec (N : nat) (Tuv_ Vuv_ : matrix) :
  is_matrix N N Tuv_ -> is_matrix N N Vuv_ ->
  exists H, calc_hcore_matrix Tuv_ Vuv_ = Ok H /\ is_matrix N N H /\
    (forall i j, (i < N)%nat -> (j < N)%nat ->
       at2 H i j = at2 Tuv_ i j + at2 Vuv_ i j) /\
    calc_hcore_matrix Vuv_ Tuv_ = Ok H /\
    (symmetric N Tuv_ -> symmetric N Vuv_ -> symmetric N H).
Proof.
  intros HT HV. unfold calc_hcore_matrix.
  rewrite (np_add_ok N N Tuv_ Vuv_), (np_add_ok N N Vuv_ Tuv_) by done.
  eexists. split; [reflexivity|].
  assert (forall i j, (i < N)%nat -> (j < N)%nat ->
    at2 (zip_with (zip_with Rplus) Tuv_ Vuv_) i j =
    at2 Tuv_ i j + at2 Vuv_ i j) as Hcells
    by (intros; by apply (at2_zip_rows Rplus N N)).
  split; [by apply zip_rows_is_matrix|]. split; [exact Hcells|]. split.
  - f_equal. apply (matrix_ext N N); try by apply zip_rows_is_matrix.
    intros i j Hi Hj. rewrite Hcells by done.
    rewrite (at2_zip_rows Rplus N N) by done. lra.
  - intros HTs HVs i j Hi Hj.
    rewrite !Hcells by done. by rewrite (HTs i j), (HVs i j).
Qed.

Lemma calc_hcore_matrix_spec_witness :
  exists H, calc_hcore_matrix example_H example_D = Ok H /\ is_matrix 2 2 H.
Proof.
  destruct example_shapes as (HH & HD & _).
  destruct (calc_hcore_matrix_spec 2 example_H example_D HH HD)
    as (H & Hrun & Hm & _).
  exists H. split; [exact Hrun|exact Hm].
Defined.

(** ** [form_density_matrix] *)

Lemma bigsum_const (n : nat) (c : R) : bigsum n (fun _ => c) = INR n * c.
Proof.
  induction n as [|n IH]; [rewrite bigsum_0; simpl; lra|].
  rewrite bigsum_S, IH, S_INR. lra.
Qed.

(** Only the term [k] of a sum against the Kronecker delta is left. *)
Lemma bigsum_delta (n k : nat) (f : nat -> R) :
  (k < n)%nat ->
  bigsum n (fun k' => f k' * (if decide (k = k') then 1 else 0)) = f k.
Proof.
  induction n as [|n IH]; intros Hk; [lia|].
  rewrite bigsum_S. destruct (decide (k = n)) as [->|Hne].
  - rewrite (bigsum_ext n _ (fun _ => 0)).
    + rewrite bigsum_zero. lra.
    + intros k' Hk'. rewrite decide_False by lia. lra.
  - rewrite IH by lia. lra.
Qed.

(** X6.  The density does not see the sign of an orbital: multiplying
    occupied columns of the coefficient matrix by -1 leaves the result of
    [form_density_matrix] as it is. *)
Theorem form_density_matrix_column_sign (mol_ : molecule) (C C' : matrix)
    (s : nat -> R) :
  let N := nao mol_ in
  let n_occ := (nelec mol_).1 in
  is_matrix N N C -> is_matrix N N C' -> (0 <= n_occ <= Z.of_nat N)%Z ->
  (forall k, s k = 1 \/ s k = -1) ->
  (forall i k, (i < N)%nat -> (k < Z.to_nat n_occ)%nat ->
     at2 C' i k = s k * at2 C i k) ->
  exists D, form_density_matrix mol_ C = Ok D /\
            form_density_matrix mol_ C' = Ok D.
Proof.
  intros N n_occ HC HC' Hocc Hs Hflip.
  destruct (form_density_matrix_run mol_ C HC) as (D & Hrun & HD & Hcells);
    [fold n_occ; lia|].
  destruct (form_density_matrix_run mol_ C' HC') as (D' & Hrun' & HD' & Hcells');
    [fold n_occ; lia|].
  exists D. split; [done|]. rewrite Hrun'. f_equal.
  apply (matrix_ext N N); try done.
  intros i j Hi Hj. rewrite Hcells, Hcells' by done. f_equal.
  apply bigsum_ext; intros k Hk. rewrite !Hflip by done.
  destruct (Hs k) as [-> | ->]; ring.
Qed.

Lemma form_density_matrix_column_sign_witness :
  exists D, form_density_matrix example_mol [[1; 2]; [3; 4]] = Ok D /\
            form_density_matrix example_mol [[-1; 2]; [-3; 4]] = Ok D.
Proof.
  apply (form_density_matrix_column_sign example_mol
           [[1; 2]; [3; 4]] [[-1; 2]; [-3; 4]] (fun _ => -1)).
  - solve_is_matrix.
  - solve_is_matrix.
  - simpl. lia.
  - intros k. right. reflexivity.
  - intros [|[|i]] [|k] Hi Hk; simpl in Hk; try lia;
      unfold at2; simpl; lra.
Defined.

(** X7.  One more occupied orbital adds its outer product, twice: the
    density for [n_occ + 1] is the density for [n_occ] with
    [2 * C[i, n_occ] * C[j, n_occ]] added to cell [(i, j)]. *)
Theorem form_density_matrix_next_orbital (mol1 mol2 : molecule) (C : matrix) :
  let N := nao mol1 in
  let n_occ := (nelec mol1).1 in
  nao mol2 = N -> (nelec mol2).1 = (n_occ + 1)%Z ->
  is_matrix N N C -> (0 <= n_occ < Z.of_nat N)%Z ->
  exists D1 D2,
    form_density_matrix mol1 C = Ok D1 /\
    form_density_matrix mol2 C = Ok D2 /\
    forall i j, (i < N)%nat -> (j < N)%nat ->
      at2 D2 i j =
      at2 D1 i j
      + 2 * at2 C i (Z.to_nat n_occ) * at2 C j (Z.to_nat n_occ).
Proof.
  intros N n_occ HN Hocc2 HC Hocc.
  destruct (form_density_matrix_run mol1 C HC) as (D1 & Hrun1 & _ & Hcells1);
    [fold n_occ; lia|].
  destruct (form_density_matrix_run mol2 C) as (D2 & Hrun2 & _ & Hcells2);
    [by rewrite HN|rewrite HN, Hocc2; lia|].
  exists D1, D2. split; [done|]. split; [done|].
  intros i j Hi Hj. rewrite Hcells1 by done.
  rewrite Hcells2 by (rewrite HN; done).
  rewrite Hocc2. fold n_occ.
  replace (Z.to_nat (n_occ + 1)) with (S (Z.to_nat n_occ)) by lia.
  rewrite bigsum_S. lra.
Qed.

Lemma form_density_matrix_next_orbital_witness :
  exists D1 D2,
    form_density_matrix (Mole [] [] 2 (1%Z, 1%Z)) [[1; 2]; [3; 4]] = Ok D1 /\
    form_density_matrix (Mole [] [] 2 (2%Z, 2%Z)) [[1; 2]; [3; 4]] = Ok D2 /\
    at2 D2 0 1 = at2 D1 0 1 + 2 * 2 * 4.
Proof.
  destruct (form_density_matrix_next_orbital
              (Mole [] [] 2 (1%Z, 1%Z)) (Mole [] [] 2 (2%Z, 2%Z))
              [[1; 2]; [3; 4]]) as (D1 & D2 & H1 & H2 & Hc).
  - reflexivity.
  - reflexivity.
  - solve_is_matrix.
  - simpl. lia.
  - exists D1, D2. split; [exact H1|]. split; [exact H2|].
    apply (Hc 0%nat 1%nat); simpl; lia.
Defined.

Lemma bigsum_rotate3 (n m K : nat) (f : nat -> nat -> nat -> R) :
  bigsum n (fun i => bigsum m (fun j => bigsum K (fun k => f i j k))) =
  bigsum K (fun k => bigsum n (fun i => bigsum m (fun j => f i j k))).
Proof.
  transitivity
    (bigsum n (fun i => bigsum K (fun k => bigsum m (fun j => f i j k)))).
  - apply bigsum_ext; intros i _.
    apply (bigsum_exchange m K (fun j k => f i j k)).
  - apply (bigsum_exchange n K (fun i k => bigsum m (fun j => f i j k))).
Qed.

Lemma bigsum_prod (n m : nat) (f g : nat -> R) :
  bigsum n f * bigsum m g =
  bigsum n (fun k => bigsum m (fun k' => f k * g k')).
Proof.
  rewrite <- bigsum_scal_r. apply bigsum_ext; intros k _.
  by rewrite <- bigsum_scal.
Qed.

(** X8.  The electron count.  When the occupied columns of [C] are
    normalised in a metric [S] ([C_k^T S C_k = 1]), the density that
    [form_density_matrix] returns has [Tr(D S) = 2 * n_occ]. *)
Theorem form_density_matrix_electron_count (mol_ : molecule) (C S : matrix) :
  let N := nao mol_ in
  let n_occ := (nelec mol_).1 in
  is_matrix N N C -> (0 <= n_occ <= Z.of_nat N)%Z ->
  (forall k, (k < Z.to_nat n_occ)%nat -> column_prod N C S k k = 1) ->
  exists D, form_density_matrix mol_ C = Ok D /\
            trace_prod N D S = 2 * INR (Z.to_nat n_occ).
Proof.
  intros N n_occ HC Hocc Hnorm.
  destruct (form_density_matrix_run mol_ C HC) as (D & Hrun & HD & Hcells);
    [fold n_occ; lia|].
  fold n_occ in Hcells. exists D. split; [done|].
  unfold trace_prod.
  transitivity (bigsum N (fun i => bigsum N (fun j =>
    bigsum (Z.to_nat n_occ) (fun k =>
      2 * (at2 C j k * at2 S j i * at2 C i k))))).
  { apply bigsum_ext; intros i Hi. apply bigsum_ext; intros j Hj.
    rewrite Hcells by done.
    rewrite Rmult_assoc, <- bigsum_scal_r, <- bigsum_scal.
    apply bigsum_ext; intros k _. ring. }
  rewrite (bigsum_rotate3 N N (Z.to_nat n_occ)
    (fun i j k => 2 * (at2 C j k * at2 S j i * at2 C i k))).
  rewrite (bigsum_ext _ _ (fun _ => 2)).
  { rewrite bigsum_const. lra. }
  intros k Hk.
  rewrite (bigsum_exchange N N
    (fun i j => 2 * (at2 C j k * at2 S j i * at2 C i k))).
  transitivity (2 * column_prod N C S k k); [|rewrite (Hnorm k Hk); lra].
  unfold column_prod. rewrite <- bigsum_scal.
  apply bigsum_ext; intros p _. by rewrite <- bigsum_scal.
Qed.

Lemma form_density_matrix_electron_count_witness :
  exists D, form_density_matrix example_mol [[1; 0]; [0; 1]] = Ok D /\
            trace_prod 2 D [[1; 0]; [0; 1]] = 2 * INR 1.
Proof.
  apply (form_density_matrix_electron_count example_mol
           [[1; 0]; [0; 1]] [[1; 0]; [0; 1]]).
  - solve_is_matrix.
  - simpl. lia.
  - intros [|k] Hk; simpl in Hk; [|lia].
    unfold column_prod, bigsum, at2. simpl. lra.
Defined.

(** X9.  The projector property.  When the occupied columns of [C] are
    orthonormal in a metric [S] ([C_k^T S C_k' = 1] for [k = k'] and 0
    otherwise), the density that [form_density_matrix] returns satisfies
    [D S D = 2 D]. *)
Theorem form_density_matrix_projector (mol_ : molecule) (C S : matrix) :
  let N := nao mol_ in
  let n_occ := (nelec mol_).1 in
  is_matrix N N C -> (0 <= n_occ <= Z.of_nat N)%Z ->
  (forall k k', (k < Z.to_nat n_occ)%nat -> (k' < Z.to_nat n_occ)%nat ->
     column_prod N C S k k' = if decide (k = k') then 1 else 0) ->
  exists D, form_density_matrix mol_ C = Ok D /\
    forall i j, (i < N)%nat -> (j < N)%nat ->
      prod3_at N D S D i j = 2 * at2 D i j.
Proof.
  intros N n_occ HC Hocc Horth.
  destruct (form_density_matrix_run mol_ C HC) as (D & Hrun & HD & Hcells);
    [fold n_occ; lia|].
  fold n_occ in Hcells. exists D. split; [done|].
  intros i j Hi Hj. unfold prod3_at.
  transitivity (bigsum N (fun p => bigsum N (fun q =>
    bigsum (Z.to_nat n_occ) (fun k => bigsum (Z.to_nat n_occ) (fun k' =>
      4 * (at2 C i k * at2 C j k') *
      (at2 C p k * at2 S p q * at2 C q k')))))).
  { apply bigsum_ext; intros p Hp. apply bigsum_ext; intros q Hq.
    rewrite !Hcells by done.
    transitivity (4 * at2 S p q *
      (bigsum (Z.to_nat n_occ) (fun k => at2 C i k * at2 C p k) *
       bigsum (Z.to_nat n_occ) (fun k' => at2 C q k' * at2 C j k')));
      [ring|].
    rewrite bigsum_prod, <- bigsum_scal.
    apply bigsum_ext; intros k _. rewrite <- bigsum_scal.
    apply bigsum_ext; intros k' _. ring. }
  rewrite (bigsum_rotate3 N N (Z.to_nat n_occ) (fun p q k =>
    bigsum (Z.to_nat n_occ) (fun k' =>
      4 * (at2 C i k * at2 C j k') *
      (at2 C p k * at2 S p q * at2 C q k')))).
  rewrite Hcells by done. rewrite <- !bigsum_scal.
  apply bigsum_ext; intros k Hk.
  rewrite (bigsum_rotate3 N N (Z.to_nat n_occ) (fun p q k' =>
      4 * (at2 C i k * at2 C j k') *
      (at2 C p k * at2 S p q * at2 C q k'))).
  transitivity (bigsum (Z.to_nat n_occ) (fun k' =>
    4 * (at2 C i k * at2 C j k') * (if decide (k = k') then 1 else 0))).
  { apply bigsum_ext; intros k' Hk'. rewrite <- (Horth k k' Hk Hk').
    unfold column_prod. rewrite <- bigsum_scal.
    apply bigsum_ext; intros p _. by rewrite <- bigsum_scal. }
  rewrite (bigsum_delta (Z.to_nat n_occ) k
    (fun k' => 4 * (at2 C i k * at2 C j k'))) by done.
  ring.
Qed.

Lemma form_density_matrix_projector_witness :
  exists D, form_density_matrix example_mol [[1; 0]; [0; 1]] = Ok D /\
            prod3_at 2 D [[1; 0]; [0; 1]] D 0 0 = 2 * at2 D 0 0.
Proof.
  destruct (form_density_matrix_projector example_mol
              [[1; 0]; [0; 1]] [[1; 0]; [0; 1]]) as (D & Hrun & Hcells).
  - solve_is_matrix.
  - simpl. lia.
  - intros [|k] [|k'] Hk Hk'; simpl in Hk, Hk'; try lia.
    unfold column_prod, bigsum, at2. simpl. lra.
  - exists D. split; [exact Hrun|]. apply Hcells; simpl; lia.
Defined.

(** ** [calc_fock_matrix] and [calc_tot_energy] together *)

Lemma coulomb_zero (N : nat) (D : matrix) (ERI : tensor4) (i j : nat) :
  (forall k l, (k < N)%nat -> (l < N)%nat -> at2 D k l = 0) ->
  coulomb N D ERI i j = 0 /\ exchange_code N D ERI i j = 0.
Proof.
  intros HD. unfold coulomb, exchange_code. split.
  - rewrite (bigsum_ext N _ (fun _ => 0)); [apply bigsum_zero|].
    intros k Hk. rewrite (bigsum_ext N _ (fun _ => 0)); [apply bigsum_zero|].
    intros l Hl. rewrite HD by done. lra.
  - rewrite (bigsum_ext N _ (fun _ => 0)); [apply bigsum_zero|].
    intros k Hk. rewrite (bigsum_ext N _ (fun _ => 0)); [apply bigsum_zero|].
    intros l Hl. rewrite HD by done. lra.
Qed.

Lemma coulomb_add (N : nat) (D1 D2 D3 : matrix) (ERI : tensor4) (i j : nat) :
  (forall k l, (k < N)%nat -> (l < N)%nat ->
     at2 D3 k l = at2 D1 k l + at2 D2 k l) ->
  coulomb N D3 ERI i j = coulomb N D1 ERI i j + coulomb N D2 ERI i j /\
  exchange_code N D3 ERI i j =
  exchange_code N D1 ERI i j + exchange_code N D2 ERI i j.
Proof.
  intros HD. unfold coulomb, exchange_code. split.
  - rewrite <- bigsum_plus. apply bigsum_ext; intros k Hk.
    rewrite <- bigsum_plus. apply bigsum_ext; intros l Hl.
    rewrite HD by done. ring.
  - rewrite <- bigsum_plus. apply bigsum_ext; intros k Hk.
    rewrite <- bigsum_plus. apply bigsum_ext; intros l Hl.
    rewrite HD by done. ring.
Qed.

Lemma bigsum2_plus (n m : nat) (f g : nat -> nat -> R) :
  bigsum n (fun i => bigsum m (fun j => f i j))
  + bigsum n (fun i => bigsum m (fun j => g i j)) =
  bigsum n (fun i => bigsum m (fun j => f i j + g i j)).
Proof.
  rewrite <- bigsum_plus. apply bigsum_ext; intros i _.
  by rewrite <- bigsum_plus.
Qed.

Lemma calc_tot_energy_value (N : nat) (h : heap) (Fuv_ Huv_ Duv_ : nat)
    (Enuc_ : R) (F H D : matrix) :
  h !! Fuv_ = Some (Mat F) ->
  h !! Huv_ = Some (Mat H) ->
  h !! Duv_ = Some (Mat D) ->
  is_matrix N N F -> is_matrix N N H -> is_matrix N N D ->
  calc_tot_energy Fuv_ Huv_ Duv_ Enuc_ h =
  Ok (0.5 * bigsum N (fun i => bigsum N (fun j =>
              at2 D i j * (at2 H i j + at2 F i j))) + Enuc_, h).
Proof.
  intros HF HH HD HFm HHm HDm. unfold calc_tot_energy.
  assert (is_matrix N N (zip_with (zip_with Rplus) H F)) as HHF
    by by apply zip_rows_is_matrix.
  erewrite M_bind_run by (by apply load_mat_run).
  erewrite M_bind_run by (by apply load_mat_run).
  erewrite M_bind_run by (by apply load_mat_run).
  erewrite M_bind_run by (apply lift_run; by apply (np_add_ok N N)).
  erewrite M_bind_run by (apply lift_run; by apply (np_mul_ok N N)).
  unfold mret, M_ret. f_equal. f_equal. f_equal. f_equal.
  rewrite (np_sum_mul N) by done.
  apply bigsum_ext; intros i Hi. apply bigsum_ext; intros j Hj.
  by rewrite (at2_zip_rows Rplus N N).
Qed.

(** X10.  The first iteration.  With the density of
    [calc_initial_density] (all zeros) [calc_fock_matrix] returns a new
    array that is equal to the core Hamiltonian. *)
Theorem calc_fock_matrix_initial_density (mol_ : molecule) (h : heap)
    (h_core_ er_ints_ Duv_ : nat) (H : matrix) (ERI : tensor4) :
  let N := nao mol_ in
  h !! h_core_ = Some (Mat H) ->
  h !! er_ints_ = Some (Ten ERI) ->
  h !! Duv_ = Some (Mat (calc_initial_density mol_)) ->
  is_matrix N N H -> is_tensor4 N ERI ->
  exists Fuv,
    calc_fock_matrix mol_ h_core_ er_ints_ Duv_ h =
      Ok (Fuv, <[Fuv := Mat H]> h) /\
    h !! Fuv = None.
Proof.
  intros N HH HE HD HHm HEt.
  destruct (calc_fock_matrix_run mol_ h h_core_ er_ints_ Duv_ H
              (calc_initial_density mol_) ERI HH HE HD HHm
              (np_zeros_is_matrix _ _) HEt) as (F & Hrun & Hfresh & HF & Hcells).
  exists (fresh (dom h)). split; [|done].
  rewrite Hrun. assert (F = H) as ->; [|done].
  apply (matrix_ext N N); try done.
  intros i j Hi Hj. rewrite Hcells by done.
  destruct (coulomb_zero (nao mol_) (calc_initial_density mol_) ERI i j)
    as [-> ->]; [|lra].
  intros k l _ _. apply at2_np_zeros.
Qed.

Lemma example_heap0_lookup :
  example_heap0 !! 0%nat = Some (Mat example_H) /\
  example_heap0 !! 2%nat = Some (Ten example_ERI) /\
  example_heap0 !! 1%nat = Some (Mat (calc_initial_density example_mol)).
Proof. repeat split; vm_compute; reflexivity. Qed.

Lemma calc_fock_matrix_initial_density_witness :
  exists Fuv,
    calc_fock_matrix example_mol 0 2 1 example_heap0 =
      Ok (Fuv, <[Fuv := Mat example_H]> example_heap0) /\
    example_heap0 !! Fuv = None.
Proof.
  destruct example_shapes as (HH & _ & HE & _).
  destruct example_heap0_lookup as (L0 & L2 & L1).
  exact (calc_fock_matrix_initial_density example_mol example_heap0
           0%nat 2%nat 1%nat example_H example_ERI L0 L2 L1 HH HE).
Defined.

(** X11.  The two-electron part is additive in the density: for densities
    [D1], [D2] and their elementwise sum [D3], all in the same heap, the Fock
    matrices satisfy [F3[i,j] - H[i,j] = (F1[i,j] - H[i,j]) +
    (F2[i,j] - H[i,j])]. *)
Theorem calc_fock_matrix_additive (mol_ : molecule) (h : heap)
    (h_core_ er_ints_ d1 d2 d3 : nat) (H D1 D2 D3 : matrix) (ERI : tensor4) :
  let N := nao mol_ in
  h !! h_core_ = Some (Mat H) ->
  h !! er_ints_ = Some (Ten ERI) ->
  h !! d1 = Some (Mat D1) -> h !! d2 = Some (Mat D2) ->
  h !! d3 = Some (Mat D3) ->
  is_matrix N N H -> is_tensor4 N ERI ->
  is_matrix N N D1 -> is_matrix N N D2 -> np_add D1 D2 = Ok D3 ->
  exists Fuv F1 F2 F3,
    calc_fock_matrix mol_ h_core_ er_ints_ d1 h
      = Ok (Fuv, <[Fuv := Mat F1]> h) /\
    calc_fock_matrix mol_ h_core_ er_ints_ d2 h
      = Ok (Fuv, <[Fuv := Mat F2]> h) /\
    calc_fock_matrix mol_ h_core_ er_ints_ d3 h
      = Ok (Fuv, <[Fuv := Mat F3]> h) /\
    forall i j, (i < N)%nat -> (j < N)%nat ->
      at2 F3 i j - at2 H i j =
      (at2 F1 i j - at2 H i j) + (at2 F2 i j - at2 H i j).
Proof.
  intros N HH HE H1 H2 H3 HHm HEt HD1 HD2 Hadd.
  rewrite (np_add_ok N N) in Hadd by done. injection Hadd as <-.
  assert (is_matrix N N (zip_with (zip_with Rplus) D1 D2)) as HD3
    by by apply zip_rows_is_matrix.
  destruct (calc_fock_matrix_run mol_ h h_core_ er_ints_ d1 H D1 ERI
              HH HE H1 HHm HD1 HEt) as (F1 & Hrun1 & _ & _ & Hc1).
  destruct (calc_fock_matrix_run mol_ h h_core_ er_ints_ d2 H D2 ERI
              HH HE H2 HHm HD2 HEt) as (F2 & Hrun2 & _ & _ & Hc2).
  destruct (calc_fock_matrix_run mol_ h h_core_ er_ints_ d3 H _ ERI
              HH HE H3 HHm HD3 HEt) as (F3 & Hrun3 & _ & _ & Hc3).
  exists (fresh (dom h)), F1, F2, F3.
  split; [done|]. split; [done|]. split; [done|].
  intros i j Hi Hj. rewrite Hc1, Hc2, Hc3 by done.
  destruct (coulomb_add (nao mol_) D1 D2
              (zip_with (zip_with Rplus) D1 D2) ERI i j) as [-> ->]; [|lra].
  intros k l Hk Hl. by apply (at2_zip_rows Rplus N N).
Qed.

Lemma example_heap_sum_lookup :
  example_heap_sum !! 0%nat = Some (Mat example_H) /\
  example_heap_sum !! 2%nat = Some (Ten example_ERI) /\
  example_heap_sum !! 1%nat = Some (Mat example_D) /\
  example_heap_sum !! 3%nat = Some (Mat example_H) /\
  example_heap_sum !! 4%nat = Some (Mat example_D_sum).
Proof. repeat split; vm_compute; reflexivity. Qed.

Lemma example_D_sum_eq : np_add example_D example_H = Ok example_D_sum.
Proof.
  destruct example_shapes as (HH & HD & _).
  rewrite (np_add_ok 2 2) by done. f_equal.
  unfold example_D, example_H, example_D_sum. simpl.
  repeat (f_equal; try lra).
Qed.

Lemma calc_fock_matrix_additive_witness :
  exists Fuv F1 F2 F3,
    calc_fock_matrix example_mol 0 2 1 example_heap_sum
      = Ok (Fuv, <[Fuv := Mat F1]> example_heap_sum) /\
    calc_fock_matrix example_mol 0 2 3 example_heap_sum
      = Ok (Fuv, <[Fuv := Mat F2]> example_heap_sum) /\
    calc_fock_matrix example_mol 0 2 4 example_heap_sum
      = Ok (Fuv, <[Fuv := Mat F3]> example_heap_sum) /\
    at2 F3 0 1 - at2 example_H 0 1 =
    (at2 F1 0 1 - at2 example_H 0 1) + (at2 F2 0 1 - at2 example_H 0 1).
Proof.
  destruct example_shapes as (HH & HD & HE & _).
  destruct example_heap_sum_lookup as (L0 & L2 & L1 & L3 & L4).
  destruct (calc_fock_matrix_additive example_mol example_heap_sum
              0%nat 2%nat 1%nat 3%nat 4%nat
              example_H example_D example_H example_D_sum example_ERI
              L0 L2 L1 L3 L4 HH HE HD HH example_D_sum_eq)
    as (Fuv & F1 & F2 & F3 & R1 & R2 & R3 & Hc).
  exists Fuv, F1, F2, F3.
  split; [exact R1|]. split; [exact R2|]. split; [exact R3|].
  apply Hc; simpl; lia.
Defined.

(** X12.  Calling [calc_fock_matrix] twice on the same arguments gives two
    different references that hold equal matrices: the first call changes
    nothing that the second one reads. *)
Theorem calc_fock_matrix_twice (mol_ : molecule) (h : heap)
    (h_core_ er_ints_ Duv_ : nat) (H D : matrix) (ERI : tensor4) :
  let N := nao mol_ in
  h !! h_core_ = Some (Mat H) ->
  h !! er_ints_ = Some (Ten ERI) ->
  h !! Duv_ = Some (Mat D) ->
  is_matrix N N H -> is_matrix N N D -> is_tensor4 N ERI ->
  exists f1 f2 h1 h2 F,
    calc_fock_matrix mol_ h_core_ er_ints_ Duv_ h = Ok (f1, h1) /\
    calc_fock_matrix mol_ h_core_ er_ints_ Duv_ h1 = Ok (f2, h2) /\
    f1 <> f2 /\
    h2 !! f1 = Some (Mat F) /\ h2 !! f2 = Some (Mat F).
Proof.
  intros N HH HE HD HHm HDm HEt.
  destruct (calc_fock_matrix_run mol_ h h_core_ er_ints_ Duv_ H D ERI
              HH HE HD HHm HDm HEt) as (F & Hrun & Hfresh & HF & Hcells).
  set (f1 := fresh (dom h)) in *. set (h1 := <[f1 := Mat F]> h) in *.
  assert (forall r a, h !! r = Some a -> h1 !! r = Some a) as Hkeep.
  { intros r a Hr. unfold h1. rewrite lookup_insert_ne; [done|].
    intros <-. congruence. }
  destruct (calc_fock_matrix_run mol_ h1 h_core_ er_ints_ Duv_ H D ERI
              (Hkeep _ _ HH) (Hkeep _ _ HE) (Hkeep _ _ HD) HHm HDm HEt)
    as (F' & Hrun' & Hfresh' & HF' & Hcells').
  assert (F' = F) as ->.
  { apply (matrix_ext N N); try done.
    intros i j Hi Hj. by rewrite Hcells, Hcells'. }
  assert (h1 !! f1 = Some (Mat F)) as Hf1 by apply lookup_insert_eq.
  assert (f1 <> fresh (dom h1)) as Hne by (intros E; congruence).
  exists f1, (fresh (dom h1)), h1, (<[fresh (dom h1) := Mat F]> h1), F.
  split; [done|]. split; [done|]. split; [done|]. split.
  - by rewrite lookup_insert_ne.
  - apply lookup_insert_eq.
Qed.

Lemma calc_fock_matrix_twice_witness :
  exists f1 f2 h1 h2 F,
    calc_fock_matrix example_mol 0 2 1 example_heap = Ok (f1, h1) /\
    calc_fock_matrix example_mol 0 2 1 h1 = Ok (f2, h2) /\
    f1 <> f2 /\
    h2 !! f1 = Some (Mat F) /\ h2 !! f2 = Some (Mat F).
Proof.
  destruct example_shapes as (HH & HD & HE & _).
  destruct example_heap_lookup as (L0 & L2 & L1).
  exact (calc_fock_matrix_twice example_mol example_heap
           0%nat 2%nat 1%nat example_H example_D example_ERI
           L0 L2 L1 HH HD HE).
Defined.

(** X13.  Without occupied orbitals the energy is the nuclear term: when
    the occupation count is 0 (or negative) [form_density_matrix] returns a
    density [D] for which [calc_tot_energy] returns [Enuc_], whatever the
    Fock and core matrices are. *)
Theorem calc_tot_energy_no_electrons (mol_ : molecule) (C : matrix)
    (h : heap) (Fuv_ Huv_ Duv_ : nat) (Enuc_ : R) (F H : matrix) :
  let N := nao mol_ in
  ((nelec mol_).1 <= 0)%Z ->
  is_matrix N N F -> is_matrix N N H ->
  h !! Fuv_ = Some (Mat F) -> h !! Huv_ = Some (Mat H) ->
  exists D, form_density_matrix mol_ C = Ok D /\
    (h !! Duv_ = Some (Mat D) ->
     calc_tot_energy Fuv_ Huv_ Duv_ Enuc_ h = Ok (Enuc_, h)).
Proof.
  intros N Hocc HFm HHm HF HH.
  exists (np_zeros N N). split.
  - apply form_density_matrix_no_occ. lia.
  - intros HD.
    rewrite (calc_tot_energy_value N h Fuv_ Huv_ Duv_ Enuc_ F H
               (np_zeros N N)) by (done || apply np_zeros_is_matrix).
    do 2 f_equal.
    rewrite (bigsum_ext N _ (fun _ => 0)); [rewrite bigsum_zero; lra|].
    intros i _. rewrite (bigsum_ext N _ (fun _ => 0)); [apply bigsum_zero|].
    intros j _. rewrite at2_np_zeros. lra.
Qed.

Lemma calc_tot_energy_no_electrons_witness :
  exists D,
    form_density_matrix (Mole [] [] 2 (0%Z, 0%Z)) [[1; 2]; [3; 4]] = Ok D /\
    (example_heap0 !! 1%nat = Some (Mat D) ->
     calc_tot_energy 0 0 1 7 example_heap0 = Ok (7, example_heap0)).
Proof.
  destruct example_shapes as (HH & _).
  destruct example_heap0_lookup as (L0 & _).
  apply (calc_tot_energy_no_electrons (Mole [] [] 2 (0%Z, 0%Z))
           [[1; 2]; [3; 4]] example_heap0 0%nat 0%nat 1%nat 7
           example_H example_H).
  - simpl. lia.
  - exact HH.
  - exact HH.
  - exact L0.
  - exact L0.
Defined.

(** X14.  The Fock build followed by the energy evaluation, on the heap
    that the build leaves: the result is
    [sum_{i,j} D[i,j] * H[i,j]
     + 0.5 * sum_{i,j} D[i,j] * (J[i,j] - 0.5 * K[i,j]) + Enuc_]
    with the Coulomb and exchange sums [J], [K] of the code, and the only
    change to the heap is the new Fock matrix. *)
Theorem calc_fock_matrix_then_energy (mol_ : molecule) (h : heap)
    (h_core_ er_ints_ Duv_ : nat) (Enuc_ : R) (H D : matrix)
    (ERI : tensor4) :
  let N := nao mol_ in
  h !! h_core_ = Some (Mat H) ->
  h !! er_ints_ = Some (Ten ERI) ->
  h !! Duv_ = Some (Mat D) ->
  is_matrix N N H -> is_matrix N N D -> is_tensor4 N ERI ->
  exists Fuv F,
    h !! Fuv = None /\
    (Fuv ← calc_fock_matrix mol_ h_core_ er_ints_ Duv_;
     calc_tot_energy Fuv h_core_ Duv_ Enuc_) h =
    Ok (bigsum N (fun i => bigsum N (fun j => at2 D i j * at2 H i j))
        + 0.5 * bigsum N (fun i => bigsum N (fun j =>
                  at2 D i j * (coulomb N D ERI i j
                               - 0.5 * exchange_code N D ERI i j)))
        + Enuc_,
        <[Fuv := Mat F]> h).
Proof.
  intros N HH HE HD HHm HDm HEt.
  destruct (calc_fock_matrix_run mol_ h h_core_ er_ints_ Duv_ H D ERI
              HH HE HD HHm HDm HEt) as (F & Hrun & Hfresh & HF & Hcells).
  set (f := fresh (dom h)) in *.
  exists f, F. split; [done|].
  assert (forall r a, h !! r = Some a -> <[f := Mat F]> h !! r = Some a)
    as Hkeep.
  { intros r a Hr. rewrite lookup_insert_ne; [done|]. intros <-. congruence. }
  erewrite M_bind_run by exact Hrun.
  rewrite (calc_tot_energy_value N _ f h_core_ Duv_ Enuc_ F H D)
    by (done || apply lookup_insert_eq || by apply Hkeep).
  f_equal. f_equal. subst N. set (N := nao mol_) in *.
  assert (bigsum N (fun i => bigsum N (fun j =>
            at2 D i j * (at2 H i j + at2 F i j))) =
          bigsum N (fun i => bigsum N (fun j => at2 D i j * at2 H i j))
          + bigsum N (fun i => bigsum N (fun j => at2 D i j * at2 H i j))
          + bigsum N (fun i => bigsum N (fun j =>
              at2 D i j * (coulomb N D ERI i j
                           - 0.5 * exchange_code N D ERI i j)))) as ->;
    [|lra].
  rewrite !bigsum2_plus.
  apply bigsum_ext; intros i Hi. apply bigsum_ext; intros j Hj.
  rewrite Hcells by done. ring.
Qed.

Lemma calc_fock_matrix_then_energy_witness :
  exists Fuv F E,
    example_heap !! Fuv = None /\
    (Fuv ← calc_fock_matrix example_mol 0 2 1;
     calc_tot_energy Fuv 0 1 7) example_heap =
    Ok (E, <[Fuv := Mat F]> example_heap).
Proof.
  destruct example_shapes as (HH & HD & HE & _).
  destruct example_heap_lookup as (L0 & L2 & L1).
  destruct (calc_fock_matrix_then_energy example_mol example_heap
              0%nat 2%nat 1%nat 7 example_H example_D example_ERI
              L0 L2 L1 HH HD HE) as (Fuv & F & Hfresh & Hrun).
  exists Fuv, F. eexists. split; [exact Hfresh|exact Hrun].
Defined.
